(** * pdfrenamer: the row extractor and the batch renamer of [app.py]

    A shallow embedding of [extract_table_data] and of the batch loop of
    [main], with the properties of the specification stated over it.

    Modelling conventions.
    - PyMuPDF hands coordinates over as floats.  In the model of the
      extraction they are exact rationals ([Q]): [c['y'] / 5],
      [next_cell['y'] - current_y] and [current_y + 10] are computed without
      rounding error, and no NaN exists.  [round] is Python 3's
      round-half-to-even.  What is proved of that model about the row, the
      pages and the batch does not depend on the arithmetic.  The two tests of
      the walk (lines 48 and 50) are made by the code on double-precision
      results; the walk is therefore modelled a second time on binary64
      floats ([collect_row_d]), and what is said about the thresholds is
      said of that model.
    - A Python [str] is the [string] of the bytes of its UTF-8 encoding.
      [strip] removes the 29 characters that [str.isspace] accepts, those
      above U+007F in their encoding of two or three bytes.
    - [fitz.open] is the external parser: it is a parameter that maps the
      byte buffer either to an exception or to the sequence of pages; each
      page is either the exception that loading it or [get_text] raises,
      or the list of blocks of its text dictionary.
    - A dictionary key that the code reads with [.get(key, default)] is a
      record field that holds the default when the key is missing.
    - The effects of [extract_table_data] that the specification talks
      about (opening and closing the document, [st.error]) are an event
      trace returned next to the result. *)

From Stdlib Require Import Ascii QArith Qround Qabs Lqa Floats.
From stdpp Require Import gmap strings list sorting pretty.


(** ** Python primitives *)

Module Py.

(** [a < b] on coordinates. *)
Definition Qltb (a b : Q) : bool := negb (Qle_bool b a).

(** [round(q)] of Python 3: nearest integer, ties to the even one. *)
Definition round (q : Q) : Z :=
  let f := Qfloor q in
  let r := (q - inject_Z f)%Q in
  if Qltb r (1 # 2) then f
  else if Qltb (1 # 2) r then (f + 1)%Z
  else if Z.even f then f else (f + 1)%Z.

(** The whitespace of [str.isspace] below U+0080: U+0009-000D, U+001C-001F
    and the space. *)
Definition isspace (c : Ascii.ascii) : bool :=
  let n := Ascii.nat_of_ascii c in
  ((9 <=? n)%nat && (n <=? 13)%nat) || ((28 <=? n)%nat && (n <=? 32)%nat).

Definition byte_is (n : nat) (c : Ascii.ascii) : bool :=
  (Ascii.nat_of_ascii c =? n)%nat.

(** The whitespace of [str.isspace] with two bytes: U+0085 and U+00A0. *)
Definition two_byte_space (c d : Ascii.ascii) : bool :=
  byte_is 194 c && (byte_is 133 d || byte_is 160 d).

(** The whitespace of [str.isspace] with three bytes: U+1680; U+2000-200A,
    U+2028, U+2029 and U+202F; U+205F; U+3000. *)
Definition three_byte_space (c d e : Ascii.ascii) : bool :=
  (byte_is 225 c && byte_is 154 d && byte_is 128 e)
  || (byte_is 226 c && byte_is 128 d &&
      (((128 <=? Ascii.nat_of_ascii e)%nat && (Ascii.nat_of_ascii e <=? 138)%nat)
       || byte_is 168 e || byte_is 169 e || byte_is 175 e))
  || (byte_is 226 c && byte_is 129 d && byte_is 159 e)
  || (byte_is 227 c && byte_is 128 d && byte_is 128 e).

(** One whitespace character at the head of [s]: what follows it. *)
Definition space_prefix (s : string) : option string :=
  match s with
  | EmptyString => None
  | String c s1 =>
      if isspace c then Some s1
      else match s1 with
           | EmptyString => None
           | String d s2 =>
               if two_byte_space c d then Some s2
               else match s2 with
                    | EmptyString => None
                    | String e s3 =>
                        if three_byte_space c d e then Some s3 else None
                    end
           end
  end.

(** [s.lstrip()]: the whitespace characters at the head are dropped. *)
Fixpoint lstrip (s : string) : string :=
  match s with
  | EmptyString => EmptyString
  | String c s1 =>
      if isspace c then lstrip s1
      else match s1 with
           | EmptyString => s
           | String d s2 =>
               if two_byte_space c d then lstrip s2
               else match s2 with
                    | EmptyString => s
                    | String e s3 =>
                        if three_byte_space c d e then lstrip s3 else s
                    end
           end
  end.

(** [s] holds whitespace characters only. *)
Fixpoint all_space (s : string) : bool :=
  match s with
  | EmptyString => true
  | String c s1 =>
      if isspace c then all_space s1
      else match s1 with
           | EmptyString => false
           | String d s2 =>
               if two_byte_space c d then all_space s2
               else match s2 with
                    | EmptyString => false
                    | String e s3 =>
                        if three_byte_space c d e then all_space s3 else false
                    end
           end
  end.

(** [s.rstrip()]: the string is cut where only whitespace follows. *)
Fixpoint rstrip (s : string) : string :=
  match s with
  | EmptyString => EmptyString
  | String c s1 => if all_space s then EmptyString else String c (rstrip s1)
  end.

(** [s.strip()] *)
Definition strip (s : string) : string := rstrip (lstrip s).

(** [sep.join(l)] *)
Fixpoint join (sep : string) (l : list string) : string :=
  match l with
  | [] => ""
  | [s] => s
  | s :: l' => s +:+ sep +:+ join sep l'
  end.

(** Truthiness of a [list]. *)
Definition truthy {A} (l : list A) : bool :=
  match l with [] => false | _ => true end.

(** Truthiness of a [str]. *)
Definition nonempty (s : string) : bool :=
  match s with EmptyString => false | _ => true end.

End Py.

(** ** Data model *)

(** A span of the text dictionary: [span.get("text", "")] and
    [span.get("bbox", [])]. *)
Record span := { span_text : string; span_bbox : list Q }.

(** A line: [line.get("spans", [])]. *)
Record line := { line_spans : list span }.

(** A block: [block.get("type")] and [block.get("lines", [])]. *)
Record block := { block_type : Z; block_lines : list line }.

(** The entries of [potential_cells]. *)
Record cell := { cell_text : string; cell_x : Q; cell_y : Q }.

(** What the code can raise inside the [try]: an error of PyMuPDF, or the
    [ValueError] of unpacking a bounding box that has not four entries. *)
Inductive exn :=
| FitzError (msg : string)
| ValueError (got : nat).

(** A page as [for page in doc] and [page.get_text("dict").get("blocks", [])]
    deliver it. *)
Definition page := (exn + list block)%type.
Definition document := list page.

Definition row := list string.

(** Observable effects of one extraction call. *)
Inductive event :=
| DocOpen
| DocClose
| StError (e : exn).

(** ** [extract_table_data] *)

(** The literal the anchor is compared with. *)
Definition anchor : string := "KCZ".

(** Lines 25-34: one span. *)
Definition span_cells (s : span) (potential_cells : list cell)
  : exn + list cell :=
  let text := Py.strip (span_text s) in
  if Py.nonempty text then
    match span_bbox s with
    | [] => inr potential_cells
    | [x0; y0; _; _] =>
        inr (potential_cells ++ [{| cell_text := text; cell_x := x0; cell_y := y0 |}])
    | bbox => inl (ValueError (length bbox))
    end
  else inr potential_cells.

(** Line 24: the spans of a line, in order, stopping at the first exception. *)
Fixpoint spans_cells (spans : list span) (potential_cells : list cell)
  : exn + list cell :=
  match spans with
  | [] => inr potential_cells
  | s :: spans' =>
      match span_cells s potential_cells with
      | inl e => inl e
      | inr cells => spans_cells spans' cells
      end
  end.

(** Line 23: the lines of a block. *)
Fixpoint lines_cells (lines : list line) (potential_cells : list cell)
  : exn + list cell :=
  match lines with
  | [] => inr potential_cells
  | l :: lines' =>
      match spans_cells (line_spans l) potential_cells with
      | inl e => inl e
      | inr cells => lines_cells lines' cells
      end
  end.

(** Lines 21-22: the blocks of a page; only text blocks (type 0) are read. *)
Fixpoint blocks_cells (blocks : list block) (potential_cells : list cell)
  : exn + list cell :=
  match blocks with
  | [] => inr potential_cells
  | b :: blocks' =>
      if (block_type b =? 0)%Z then
        match lines_cells (block_lines b) potential_cells with
        | inl e => inl e
        | inr cells => blocks_cells blocks' cells
        end
      else blocks_cells blocks' potential_cells
  end.

(** Line 37: the sort key [(round(c['y'] / 5), c['x'])]. *)
Definition sort_key (c : cell) : Z * Q := (Py.round (cell_y c / 5), cell_x c).

(** Python's [<] on the key tuples. *)
Definition key_ltb (k1 k2 : Z * Q) : bool :=
  if (fst k1 =? fst k2)%Z then Py.Qltb (snd k1) (snd k2)
  else (fst k1 <? fst k2)%Z.

(** [list.sort] is stable, so its result is the one of inserting the cells
    from the right, each before the first cell whose key is not smaller. *)
Fixpoint insert_cell (c : cell) (sorted : list cell) : list cell :=
  match sorted with
  | [] => [c]
  | h :: t =>
      if key_ltb (sort_key h) (sort_key c) then h :: insert_cell c t
      else c :: sorted
  end.

Fixpoint sort_cells (cells : list cell) : list cell :=
  match cells with
  | [] => []
  | c :: cells' => insert_cell c (sort_cells cells')
  end.

(** Lines 46-51: the walk over the cells after the anchor.  [rest] holds
    [potential_cells[i+1:]]; the result is [row_cells] when the loop ends. *)
Fixpoint collect_row (current_y : Q) (rest : list cell) (row_cells : row) : row :=
  match rest with
  | [] => row_cells
  | next_cell :: rest' =>
      if Py.Qltb (Qabs (cell_y next_cell - current_y)) 5 then
        collect_row current_y rest' (row_cells ++ [cell_text next_cell])
      else if Py.Qltb (current_y + 10) (cell_y next_cell) then
        row_cells
      else collect_row current_y rest' row_cells
  end.

(** Lines 40-56: the scan of the sorted cells of one page. *)
Fixpoint find_row (potential_cells : list cell) : option row :=
  match potential_cells with
  | [] => None
  | c :: rest =>
      if String.eqb (cell_text c) anchor then
        let row_cells := collect_row (cell_y c) rest [cell_text c] in
        if (9 <=? length row_cells)%nat then Some (take 9 row_cells)
        else find_row rest
      else find_row rest
  end.

(** How the page loop ends. *)
Inductive outcome :=
| Returned (r : row)
| Exhausted
| Raised (e : exn).

(** Lines 17-56. *)
Fixpoint pages_loop (doc : document) : outcome :=
  match doc with
  | [] => Exhausted
  | inl e :: _ => Raised e
  | inr blocks :: doc' =>
      match blocks_cells blocks [] with
      | inl e => Raised e
      | inr potential_cells =>
          match find_row (sort_cells potential_cells) with
          | Some r => Returned r
          | None => pages_loop doc'
          end
      end
  end.

Section Extract.

(** [fitz.open(stream=pdf_bytes, filetype="pdf")] *)
Variable fitz_open : list Byte.byte -> exn + document.

(** Lines 11-63: the returned value and the events of the call. *)
Definition extract_table_data (pdf_bytes : list Byte.byte)
  : option row * list event :=
  match fitz_open pdf_bytes with
  | inl e => (None, [StError e])
  | inr doc =>
      match pages_loop doc with
      | Returned r => (Some r, [DocOpen; DocClose])
      | Exhausted => (None, [DocOpen; DocClose])
      | Raised e => (None, [DocOpen; StError e])
      end
  end.

End Extract.

(** ** The walk in double precision *)

(** A cell with its coordinates as the doubles that the code holds. *)
Record dcell := { dcell_text : string; dcell_x : float; dcell_y : float }.

(** Line 48: [abs(next_cell['y'] - current_y) < 5]. *)
Definition near_d (current_y : float) (next_cell : dcell) : bool :=
  PrimFloat.ltb (PrimFloat.abs (PrimFloat.sub (dcell_y next_cell) current_y)) 5%float.

(** Line 50: [next_cell['y'] > current_y + 10]. *)
Definition below_d (current_y : float) (next_cell : dcell) : bool :=
  PrimFloat.ltb (PrimFloat.add current_y 10%float) (dcell_y next_cell).

(** Lines 46-51 on doubles. *)
Fixpoint collect_row_d (current_y : float) (rest : list dcell) (row_cells : row)
  : row :=
  match rest with
  | [] => row_cells
  | next_cell :: rest' =>
      if near_d current_y next_cell then
        collect_row_d current_y rest' (row_cells ++ [dcell_text next_cell])
      else if below_d current_y next_cell then
        row_cells
      else collect_row_d current_y rest' row_cells
  end.

(** ** The batch loop of [main] *)

(** An uploaded file: [uploaded_file.name] and [uploaded_file.getvalue()]. *)
Record uploaded_file := { name : string; getvalue : list Byte.byte }.

(** The two values of the ["Status"] column. *)
Inductive status := Success | Failed.

(** An entry of [results]. *)
Record result_entry :=
  { Status : status; Original_Name : string; New_Name : string }.

(** The variables that the loop of lines 104-145 updates.  [zip_archive]
    lists the [writestr] calls in order. *)
Record batch_state :=
  { results : list result_entry;
    zip_archive : list (string * list Byte.byte);
    success_count : nat;
    fail_count : nat;
    generated_new_names : gset string }.

(** Lines 90-102. *)
Definition initial_state : batch_state :=
  {| results := []; zip_archive := []; success_count := 0; fail_count := 0;
     generated_new_names := ∅ |}.

(** The character class of the pattern of line 117. *)
Definition forbidden_chars : list Ascii.ascii :=
  ["<"; ">"; ":"; "034"; "/"; "\"; "|"; "?"; "*"]%char.

Definition forbidden (c : Ascii.ascii) : bool :=
  existsb (Ascii.eqb c) forbidden_chars.

(** Line 117: [re.sub] with that class and the replacement ['_']. *)
Fixpoint re_sub (s : string) : string :=
  match s with
  | EmptyString => EmptyString
  | String c s' => String (if forbidden c then "_"%char else c) (re_sub s')
  end.

(** [f"{base_name}_{counter}.pdf"] *)
Definition numbered_name (base_name : string) (counter : nat) : string :=
  base_name +:+ "_" +:+ pretty counter +:+ ".pdf".

(** Lines 122-124: the [while] loop, with [fuel] bounding its iterations. *)
Fixpoint dedup_loop (fuel : nat) (base_name : string)
    (generated : gset string) (final_new_name : string) (counter : nat)
  : option string :=
  match fuel with
  | O => None
  | S fuel' =>
      if decide (final_new_name ∈ generated) then
        dedup_loop fuel' base_name generated
          (numbered_name base_name counter) (S counter)
      else Some final_new_name
  end.

(** Fuel that the loop never uses up (see [dedup_loop_total]). *)
Definition enough_fuel (generated : gset string) : nat := size generated + 2.

(** Lines 137-142. *)
Definition record_failure (original_filename : string) (st : batch_state)
  : batch_state :=
  {| results := results st ++
       [{| Status := Failed; Original_Name := original_filename;
           New_Name := "Could not extract required data." |}];
     zip_archive := zip_archive st;
     success_count := success_count st;
     fail_count := S (fail_count st);
     generated_new_names := generated_new_names st |}.

(** Lines 125-135. *)
Definition record_success (original_filename final_new_name : string)
    (pdf_bytes : list Byte.byte) (st : batch_state) : batch_state :=
  {| results := results st ++
       [{| Status := Success; Original_Name := original_filename;
           New_Name := final_new_name |}];
     zip_archive := zip_archive st ++ [(final_new_name, pdf_bytes)];
     success_count := S (success_count st);
     fail_count := fail_count st;
     generated_new_names := {[final_new_name]} ∪ generated_new_names st |}.

Section Main.

Variable fitz_open : list Byte.byte -> exn + document.

(** Lines 105-142: the body of the loop for one file.  [None] only if the
    [while] loop ran out of fuel. *)
Definition process_file (f : uploaded_file) (st : batch_state)
  : option batch_state :=
  let original_filename := name f in
  let pdf_bytes := getvalue f in
  let table_data := fst (extract_table_data fitz_open pdf_bytes) in
  match table_data with
  | Some td =>
      if Py.truthy td && (9 <=? length td)%nat then
        let base_name := Py.join "_" (take 9 td) in
        let new_name := re_sub base_name +:+ ".pdf" in
        match dedup_loop (enough_fuel (generated_new_names st)) base_name
                (generated_new_names st) new_name 1 with
        | Some final_new_name =>
            Some (record_success original_filename final_new_name pdf_bytes st)
        | None => None
        end
      else Some (record_failure original_filename st)
  | None => Some (record_failure original_filename st)
  end.

(** Line 104: the loop over [uploaded_files]. *)
Fixpoint main_loop (uploaded_files : list uploaded_file) (st : batch_state)
  : option batch_state :=
  match uploaded_files with
  | [] => Some st
  | f :: files' =>
      match process_file f st with
      | Some st' => main_loop files' st'
      | None => None
      end
  end.

End Main.

(** ** The page of [main] *)

(** The calls of [main] to Streamlit, in the order they are made.  The
    constant labels and texts of the page furniture are left out; the calls
    that carry computed values have them. *)
Inductive ui_call :=
| SetPageConfig
| Title
| Markdown
| FileUploader
| Info (msg : string)
| Button
| Progress (value : Q) (text : option string)
| StatusText (msg : string)
| ErrorMessage (e : exn)
| StatusSuccess (msg : string)
| Subheader
| Dataframe (rows : list result_entry) (styles : list string)
| DownloadButton (data : list (string * list Byte.byte)) (file_name : string).

(** Lines 154-155, on the ["Status"] column. *)
Definition style_status (s : list status) : list string :=
  map (fun v => match v with
                | Success => "color: green"
                | Failed => "color: red"
                end) s.

(** The [st.error] calls among the events of an extraction. *)
Definition error_messages (tr : list event) : list ui_call :=
  flat_map (fun ev => match ev with
                      | StError e => [ErrorMessage e]
                      | _ => []
                      end) tr.

(** Line 145: [(i + 1) / len(uploaded_files)]. *)
Definition progress_value (i n : nat) : Q :=
  (inject_Z (Z.of_nat (i + 1)) / inject_Z (Z.of_nat n))%Q.

Section Page.

Variable fitz_open : list Byte.byte -> exn + document.

(** Lines 106, 112 and 145: the calls of the loop body for the file of index
    [i] among [n]. *)
Definition file_calls (n i : nat) (f : uploaded_file) : list ui_call :=
  [StatusText ("Processing: " +:+ name f)] ++
  error_messages (snd (extract_table_data fitz_open (getvalue f))) ++
  [Progress (progress_value i n) (Some ("Processed: " +:+ name f))].

(** Lines 147-167: the calls after the loop. *)
Definition report_calls (st : batch_state) : list ui_call :=
  [ StatusSuccess ("Processing complete! Success: " +:+ pretty (success_count st)
                   +:+ ", Failed: " +:+ pretty (fail_count st));
    Progress 1 None;
    Subheader;
    Dataframe (results st) (style_status (map Status (results st))) ] ++
  (if (0 <? success_count st)%nat
   then [DownloadButton (zip_archive st) "renamed_pdfs.zip"]
   else []).

(** Lines 67-169.  [uploaded_files] is what [st.file_uploader] returns and
    [pressed] what [st.button] returns.  [None] only if the loop ran out of
    fuel. *)
Definition main (uploaded_files : list uploaded_file) (pressed : bool)
  : option (list ui_call) :=
  let page := [SetPageConfig; Title; Markdown; FileUploader] in
  if Py.truthy uploaded_files then
    let selected :=
      Info ("**" +:+ pretty (length uploaded_files) +:+
            "** file(s) selected. Click the button below to start processing.") in
    if pressed then
      match main_loop fitz_open uploaded_files initial_state with
      | Some st =>
          Some (page ++ [selected; Button] ++
                [Progress 0 (Some "Starting...")] ++
                concat (imap (file_calls (length uploaded_files)) uploaded_files) ++
                report_calls st)
      | None => None
      end
    else Some (page ++ [selected; Button])
  else Some (page ++ [Info "Please upload one or more PDF files to begin."]).

End Page.

(** ** Notions the properties are stated with *)

(** [k1 <= k2] on keys, the negation of Python's [k2 < k1]. *)
Definition key_le (k1 k2 : Z * Q) : Prop :=
  (fst k1 < fst k2)%Z \/ (fst k1 = fst k2 /\ (snd k1 <= snd k2)%Q).

Definition cell_le (c1 c2 : cell) : Prop := key_le (sort_key c1) (sort_key c2).

(** Two cells that the sort cannot tell apart. *)
Definition same_key (c1 c2 : cell) : bool :=
  negb (key_ltb (sort_key c1) (sort_key c2)) &&
  negb (key_ltb (sort_key c2) (sort_key c1)).

(** The anchor [a], followed by [rest] in the sorted cells, gives a full
    row: the test of lines 41 and 54. *)
Definition qualifies (a : cell) (rest : list cell) : Prop :=
  cell_text a = anchor /\
  (9 <= length (collect_row (cell_y a) rest [cell_text a]))%nat.

(** [a] is the first cell of [before ++ a :: rest] that qualifies. *)
Definition first_qualifying (before : list cell) (a : cell) (rest : list cell)
  : Prop :=
  qualifies a rest /\
  forall b1 a' b2, before = b1 ++ a' :: b2 -> ~ qualifies a' (b2 ++ a :: rest).

(** A page that is read without an exception and on which no anchor
    qualifies. *)
Definition no_row_page (p : page) : Prop :=
  exists blocks cells,
    p = inr blocks /\ blocks_cells blocks [] = inr cells /\
    forall before a rest,
      sort_cells cells = before ++ a :: rest -> ~ qualifies a rest.

(** The scan as the specification words it: only the first cell whose text
    is the anchor is tried. *)
Fixpoint first_anchor_row (potential_cells : list cell) : option row :=
  match potential_cells with
  | [] => None
  | c :: rest =>
      if String.eqb (cell_text c) anchor then
        let row_cells := collect_row (cell_y c) rest [cell_text c] in
        if (9 <=? length row_cells)%nat then Some (take 9 row_cells) else None
      else first_anchor_row rest
  end.

(** The two failures of the specification. *)
Definition parse_failure (fitz_open : list Byte.byte -> exn + document)
    (pdf_bytes : list Byte.byte) (e : exn) : Prop :=
  fitz_open pdf_bytes = inl e \/
  exists doc, fitz_open pdf_bytes = inr doc /\ pages_loop doc = Raised e.

Definition anchor_not_found (fitz_open : list Byte.byte -> exn + document)
    (pdf_bytes : list Byte.byte) : Prop :=
  exists doc, fitz_open pdf_bytes = inr doc /\ pages_loop doc = Exhausted.

(** Document handles that a trace leaves open. *)
Definition open_handles (tr : list event) : nat :=
  fold_left (fun n ev =>
               match ev with
               | DocOpen => S n
               | DocClose => Nat.pred n
               | StError _ => n
               end) tr 0%nat.

(** The fragments that step 1 of the specification keeps: of the text
    blocks, the spans with a non-empty trimmed text and a bounding box, in
    document order. *)
Definition span_fragment (s : span) : list cell :=
  let text := Py.strip (span_text s) in
  if Py.nonempty text then
    match span_bbox s with
    | [x0; y0; _; _] => [{| cell_text := text; cell_x := x0; cell_y := y0 |}]
    | _ => []
    end
  else [].

Definition kept_fragments (blocks : list block) : list cell :=
  flat_map (fun b =>
              if (block_type b =? 0)%Z then
                flat_map (fun l => flat_map span_fragment (line_spans l))
                  (block_lines b)
              else []) blocks.

(** The archive entry that a file and its entry of [results] stand for:
    one for a success, none for a failure. *)
Definition archive_entry (fr : uploaded_file * result_entry)
  : option (string * list Byte.byte) :=
  match Status (snd fr) with
  | Success => Some (New_Name (snd fr), getvalue (fst fr))
  | Failed => None
  end.

(** What holds after the files [handled] have gone through the loop. *)
Definition batch_invariant (handled : list uploaded_file) (st : batch_state)
  : Prop :=
  map Original_Name (results st) = map name handled /\
  (success_count st + fail_count st = length handled)%nat /\
  zip_archive st = omap archive_entry (zip handled (results st)) /\
  success_count st = length (zip_archive st).

(** The names written to the archive are those of [generated_new_names],
    each once. *)
Definition names_invariant (st : batch_state) : Prop :=
  NoDup (map fst (zip_archive st)) /\
  forall n, n ∈ map fst (zip_archive st) <-> n ∈ generated_new_names st.

(** A name contains a character of the forbidden class. *)
Fixpoint has_forbidden (s : string) : bool :=
  match s with
  | EmptyString => false
  | String c s' => forbidden c || has_forbidden s'
  end.

(** The test of line 48: the cell is on the line of [current_y]. *)
Definition near (current_y : Q) (c : cell) : bool :=
  Py.Qltb (Qabs (cell_y c - current_y)) 5.

(** A page that is read without an exception and has no cell with the
    anchor's text. *)
Definition anchorless_page (p : page) : Prop :=
  exists blocks cells,
    p = inr blocks /\ blocks_cells blocks [] = inr cells /\
    Forall (fun c => cell_text c <> anchor) cells.

(** No token of a row that the extraction returns for one of [files] has a
    forbidden character. *)
Definition clean_rows (fitz_open : list Byte.byte -> exn + document)
    (files : list uploaded_file) : Prop :=
  forall f td, f ∈ files ->
    fst (extract_table_data fitz_open (getvalue f)) = Some td ->
    Forall (fun t => has_forbidden t = false) td.

(** Lines 116 and 117 for a row [td] of 9 tokens: [base_name] and
    [new_name]. *)
Definition base_name_of (td : row) : string := Py.join "_" td.

Definition new_name_of (td : row) : string := re_sub (base_name_of td) +:+ ".pdf".

(** The archive names of [n] files that all have the row [td]. *)
Definition copy_names (td : row) (n : nat) : list string :=
  match n with
  | O => []
  | S m => new_name_of td :: map (numbered_name (base_name_of td)) (seq 1 m)
  end.

(** Two loop states with the same archive, where the first has seen one
    failure more. *)
Definition one_more_failure (st1 st2 : batch_state) : Prop :=
  zip_archive st1 = zip_archive st2 /\
  generated_new_names st1 = generated_new_names st2 /\
  success_count st1 = success_count st2 /\
  fail_count st1 = S (fail_count st2).

(** The values of the [progress] calls of a trace. *)
Definition progress_values (calls : list ui_call) : list Q :=
  flat_map (fun c => match c with Progress v _ => [v] | _ => [] end) calls.

(** The archive that a trace offers for download, if any. *)
Definition offered_download (calls : list ui_call)
  : option (list (string * list Byte.byte)) :=
  head (flat_map (fun c => match c with
                           | DownloadButton data _ => [data]
                           | _ => []
                           end) calls).

(** The table that a trace shows. *)
Definition shown_tables (calls : list ui_call)
  : list (list result_entry * list string) :=
  flat_map (fun c => match c with
                     | Dataframe rows styles => [(rows, styles)]
                     | _ => []
                     end) calls.

(** The summary lines and the error messages that a trace shows. *)
Definition summaries (calls : list ui_call) : list string :=
  flat_map (fun c => match c with StatusSuccess msg => [msg] | _ => [] end) calls.

Definition shown_errors (calls : list ui_call) : list exn :=
  flat_map (fun c => match c with ErrorMessage e => [e] | _ => [] end) calls.

(** The rows of the table by status. *)
Definition is_success (r : result_entry) : bool :=
  match Status r with Success => true | Failed => false end.

Definition is_failed (r : result_entry) : bool := negb (is_success r).

(** The extraction of a file returns no row. *)
Definition extraction_fails (fitz_open : list Byte.byte -> exn + document)
    (f : uploaded_file) : bool :=
  match fst (extract_table_data fitz_open (getvalue f)) with
  | Some _ => false
  | None => true
  end.

(** Reading the page raises [e]: on loading it or reading its text, or on
    unpacking a bounding box. *)
Definition page_raises (p : page) (e : exn) : Prop :=
  p = inl e \/ exists blocks, p = inr blocks /\ blocks_cells blocks [] = inl e.

(** The rational number that a finite double stands for (0 for the
    infinities and NaN, which stand for none). *)
Definition exact (f : float) : Q :=
  match Prim2SF f with
  | S754_finite sign m e =>
      let v := match e with
               | Zneg p => (Zpos m # 2 ^ p)%Q
               | _ => inject_Z (Zpos m * 2 ^ e)
               end in
      if sign then (- v)%Q else v
  | _ => 0%Q
  end.

(** The cell of the exact model with the same text and the exact values of
    the coordinates. *)
Definition exact_cell (c : dcell) : cell :=
  {| cell_text := dcell_text c; cell_x := exact (dcell_x c);
     cell_y := exact (dcell_y c) |}.

(** The cell ends the walk on doubles: the [break] of line 51. *)
Definition ends_walk_d (current_y : float) (c : dcell) : bool :=
  negb (near_d current_y c) && below_d current_y c.

(** Rounding does not change the outcome of the two tests for the cell. *)
Definition tests_agree (current_y : float) (c : dcell) : Prop :=
  near_d current_y c = near (exact current_y) (exact_cell c) /\
  below_d current_y c = Py.Qltb (exact current_y + 10) (exact (dcell_y c)).

(** ** Sample inputs *)

Definition mk_span (t : string) (x y : Q) : span :=
  {| span_text := t; span_bbox := [x; y; x + 10; y + 10]%Q |}.

Definition text_block (spans : list span) : block :=
  {| block_type := 0; block_lines := [{| line_spans := spans |}] |}.

Definition kcz_spans : list span :=
  [ mk_span "KCZ" 0 100; mk_span "DMX" 40 100; mk_span "O" 70 100;
    mk_span "03" 90 100; mk_span "TL" 120 100; mk_span "PR" 150 100;
    mk_span "004" 180 100; mk_span "R" 210 100; mk_span "14" 240 100;
    mk_span "EXTRA" 270 100 ].

Definition kcz_doc : document := [inr [text_block kcz_spans]].

(** Cells for the three zones of the walk: the anchor at y = 100, then cells
    2, 7 and 30 units below it. *)
Definition zone_anchor : cell := {| cell_text := "KCZ"; cell_x := 0; cell_y := 100 |}.
Definition zone_near : cell := {| cell_text := "near"; cell_x := 10; cell_y := 102 |}.
Definition zone_dead : cell := {| cell_text := "dead"; cell_x := 0; cell_y := 107 |}.
Definition zone_far : cell := {| cell_text := "far"; cell_x := 0; cell_y := 130 |}.
Definition zone_cells : list cell := [zone_far; zone_dead; zone_near; zone_anchor].

(** A page with a lone anchor on its first line and a full row on a later
    line. *)
Definition two_anchor_spans : list span :=
  mk_span "KCZ" 0 20 :: mk_span "title" 40 20 :: kcz_spans.

Definition two_anchor_doc : document := [inr [text_block two_anchor_spans]].

(** A parser that rejects the empty buffer and reads any other buffer as a
    document of one page without text. *)
Definition sample_open (pdf_bytes : list Byte.byte) : exn + document :=
  match pdf_bytes with
  | [] => inl (FitzError "cannot open empty document")
  | _ => inr [inr []]
  end.

(** A document whose second page cannot be loaded. *)
Definition broken_page_doc : document :=
  [inr [text_block [mk_span "cover" 0 0]]; inl (FitzError "cannot load page")].

(** The cells of [two_anchor_spans] in sorted order, split at the second
    anchor. *)
Definition lone_anchor : cell := {| cell_text := "KCZ"; cell_x := 0; cell_y := 20 |}.
Definition title_cell : cell := {| cell_text := "title"; cell_x := 40; cell_y := 20 |}.
Definition row_anchor : cell := {| cell_text := "KCZ"; cell_x := 0; cell_y := 100 |}.
Definition row_rest : list cell :=
  [ {| cell_text := "DMX"; cell_x := 40; cell_y := 100 |};
    {| cell_text := "O"; cell_x := 70; cell_y := 100 |};
    {| cell_text := "03"; cell_x := 90; cell_y := 100 |};
    {| cell_text := "TL"; cell_x := 120; cell_y := 100 |};
    {| cell_text := "PR"; cell_x := 150; cell_y := 100 |};
    {| cell_text := "004"; cell_x := 180; cell_y := 100 |};
    {| cell_text := "R"; cell_x := 210; cell_y := 100 |};
    {| cell_text := "14"; cell_x := 240; cell_y := 100 |};
    {| cell_text := "EXTRA"; cell_x := 270; cell_y := 100 |} ].

(** A cover page, the page with two anchors, and a page that cannot be
    loaded. *)
Definition three_page_doc : document :=
  [inr [text_block [mk_span "cover" 0 0]]] ++
  inr [text_block two_anchor_spans] :: [inl (FitzError "cannot load page")].

(** A page with an image block, a blank span, a span without bounding box
    and fragments in scrambled order. *)
Definition scrambled_blocks : list block :=
  [ {| block_type := 1; block_lines := [{| line_spans := [mk_span "image" 0 0] |}] |};
    text_block [ mk_span "  " 5 100; {| span_text := "nobox"; span_bbox := [] |};
                 mk_span " 14 " 240 101 ];
    text_block (rev (take 8 kcz_spans)) ].

(** Two uploads of a document whose row has a slash in its second token. *)
Definition slash_spans : list span :=
  [ mk_span "KCZ" 0 100; mk_span "A/B" 40 100; mk_span "C" 70 100;
    mk_span "D" 90 100; mk_span "E" 120 100; mk_span "F" 150 100;
    mk_span "G" 180 100; mk_span "H" 210 100; mk_span "I" 240 100 ].

Definition slash_doc : document := [inr [text_block slash_spans]].

Definition slash_uploads : list uploaded_file :=
  [ {| name := "first.pdf"; getvalue := [Byte.x01] |};
    {| name := "second.pdf"; getvalue := [Byte.x02] |} ].

(** A document without anchor: a cover page and a page without text. *)
Definition cover_doc : document := [inr [text_block [mk_span "cover" 0 0]]; inr []].

(** Two uploads of the document of the scenario. *)
Definition kcz_uploads : list uploaded_file :=
  [ {| name := "a.pdf"; getvalue := [Byte.x01] |};
    {| name := "b.pdf"; getvalue := [Byte.x01] |} ].

(** A batch with a file that cannot be opened between two files without
    anchor. *)
Definition mixed_uploads : list uploaded_file :=
  [ {| name := "a.pdf"; getvalue := [Byte.x01] |};
    {| name := "empty.pdf"; getvalue := [] |};
    {| name := "b.pdf"; getvalue := [Byte.x02] |} ].

(** A page with a bounding box of two entries, followed by the page of the
    scenario. *)
Definition bad_box_doc : document :=
  [ inr [text_block [{| span_text := "x"; span_bbox := [0; 0]%Q |}]];
    inr [text_block kcz_spans] ].

(** An anchor at y = 0.1 and a fragment at y = 5.1, as doubles: the nearest
    doubles are 0.1000000000000000055... and 5.0999999999999996447... *)
Definition tenth_anchor : dcell :=
  {| dcell_text := "KCZ"; dcell_x := 0; dcell_y := 0x1.999999999999ap-4 |}.

Definition tenth_fragment : dcell :=
  {| dcell_text := "DMX"; dcell_x := 40; dcell_y := 0x1.4666666666666p+2 |}.

(** Doubles for the three outcomes of the walk from y = 100. *)
Definition dzone_near : dcell :=
  {| dcell_text := "near"; dcell_x := 10; dcell_y := 102 |}.
Definition dzone_dead : dcell :=
  {| dcell_text := "dead"; dcell_x := 0; dcell_y := 107 |}.
Definition dzone_far : dcell :=
  {| dcell_text := "far"; dcell_x := 0; dcell_y := 130 |}.
Definition dzone_late : dcell :=
  {| dcell_text := "late"; dcell_x := 50; dcell_y := 101 |}.

(** The cells after the anchor on the page of the scenario, as doubles. *)
Definition kcz_dcells : list dcell :=
  [ {| dcell_text := "DMX"; dcell_x := 40; dcell_y := 100 |};
    {| dcell_text := "O"; dcell_x := 70; dcell_y := 100 |};
    {| dcell_text := "03"; dcell_x := 90; dcell_y := 100 |};
    {| dcell_text := "TL"; dcell_x := 120; dcell_y := 100 |};
    {| dcell_text := "PR"; dcell_x := 150; dcell_y := 100 |};
    {| dcell_text := "004"; dcell_x := 180; dcell_y := 100 |};
    {| dcell_text := "R"; dcell_x := 210; dcell_y := 100 |};
    {| dcell_text := "14"; dcell_x := 240; dcell_y := 100 |};
    {| dcell_text := "EXTRA"; dcell_x := 270; dcell_y := 100 |} ].

(** ** Arithmetic of the thresholds *)

Example round_ties_to_even :
  (Py.round (5 # 2), Py.round (7 # 2), Py.round (-5 # 2), Py.round (13 # 5))
  = (2, 4, -2, 3)%Z.
Proof. reflexivity. Qed.

Example strip_both_ends : Py.strip "  KCZ 1 " = "KCZ 1" /\ Py.strip "   " = "".
Proof. split; reflexivity. Qed.

(** A no-break space (U+00A0) and an em space (U+2003) are whitespace too. *)
Example strip_unicode_space :
  Py.strip (String "194" (String "160" ("KCZ" +:+
            String "226" (String "128" (String "131" EmptyString))))) = "KCZ".
Proof. reflexivity. Qed.

Lemma Qltb_lt a b : Py.Qltb a b = true <-> (a < b)%Q.
Proof.
  unfold Py.Qltb. rewrite negb_true_iff, <- not_true_iff_false, Qle_bool_iff.
  split; [apply Qnot_le_lt | apply Qlt_not_le].
Qed.

Lemma Qltb_ge a b : Py.Qltb a b = false <-> (b <= a)%Q.
Proof.
  unfold Py.Qltb. rewrite negb_false_iff. apply Qle_bool_iff.
Qed.

(** [round] stays within one half of its argument. *)
Lemma round_near q :
  (inject_Z (Py.round q) - (1 # 2) <= q <= inject_Z (Py.round q) + (1 # 2))%Q.
Proof.
  pose proof (Qfloor_le q) as Hlo. pose proof (Qlt_floor q) as Hhi.
  rewrite inject_Z_plus in Hhi. change (inject_Z 1) with 1%Q in Hhi.
  unfold Py.round.
  set (f := Qfloor q) in *.
  destruct (Py.Qltb (q - inject_Z f) (1 # 2)) eqn:E1.
  { apply Qltb_lt in E1. split; lra. }
  apply Qltb_ge in E1.
  destruct (Py.Qltb (1 # 2) (q - inject_Z f)) eqn:E2.
  { rewrite inject_Z_plus. change (inject_Z 1) with 1%Q. split; lra. }
  apply Qltb_ge in E2.
  destruct (Z.even f);
    [| rewrite inject_Z_plus; change (inject_Z 1) with 1%Q]; split; lra.
Qed.

(** ** The order of the sort *)

Lemma key_ltb_false k1 k2 : key_ltb k1 k2 = false <-> key_le k2 k1.
Proof.
  unfold key_ltb, key_le. destruct (Z.eqb_spec (fst k1) (fst k2)) as [E | E].
  - rewrite Qltb_ge. split; [intros H; right; auto | intros [H | [_ H]]; [lia | auto]].
  - rewrite Z.ltb_ge. split; [intros H; left; lia | intros [H | [H _]]; [lia | congruence]].
Qed.

Lemma key_ltb_true k1 k2 : key_ltb k1 k2 = true -> key_le k1 k2.
Proof.
  unfold key_ltb, key_le. destruct (Z.eqb_spec (fst k1) (fst k2)) as [E | E].
  - rewrite Qltb_lt. intros H. right. split; [auto | apply Qlt_le_weak, H].
  - rewrite Z.ltb_lt. auto.
Qed.

Lemma key_le_total k1 k2 : key_le k1 k2 \/ key_le k2 k1.
Proof.
  destruct (key_ltb k1 k2) eqn:E.
  - left. apply key_ltb_true, E.
  - right. apply key_ltb_false, E.
Qed.

Lemma key_le_trans k1 k2 k3 : key_le k1 k2 -> key_le k2 k3 -> key_le k1 k3.
Proof.
  unfold key_le. intros [H | [H H']] [G | [G G']].
  - left; lia.
  - left; lia.
  - left; lia.
  - right. split; [congruence | eapply Qle_trans; eauto].
Qed.

#[local] Instance cell_le_trans : Transitive cell_le.
Proof. intros a b c. apply key_le_trans. Qed.

Lemma insert_cell_perm c l : insert_cell c l ≡ₚ c :: l.
Proof.
  induction l as [| h t IH]; simpl; [reflexivity |].
  destruct (key_ltb (sort_key h) (sort_key c)); [| reflexivity].
  rewrite IH. apply Permutation_swap.
Qed.

Lemma sort_cells_perm cells : sort_cells cells ≡ₚ cells.
Proof.
  induction cells as [| c t IH]; simpl; [reflexivity |].
  rewrite insert_cell_perm. now rewrite IH.
Qed.

Lemma insert_cell_sorted c l :
  StronglySorted cell_le l -> StronglySorted cell_le (insert_cell c l).
Proof.
  induction 1 as [| h t Hs IH Hall]; simpl.
  - repeat constructor.
  - destruct (key_ltb (sort_key h) (sort_key c)) eqn:E.
    + constructor; [exact IH |].
      rewrite insert_cell_perm. constructor; [apply key_ltb_true, E | exact Hall].
    + apply key_ltb_false in E. constructor; [constructor; assumption |].
      constructor; [exact E |].
      eapply Forall_impl; [exact Hall |]. intros d Hd. now transitivity h.
Qed.

Lemma sort_cells_sorted cells : StronglySorted cell_le (sort_cells cells).
Proof.
  induction cells as [| c t IH]; simpl; [constructor | now apply insert_cell_sorted].
Qed.

(** The sort is stable: cells with the same key keep their order.  With
    [sort_cells_sorted] this fixes the result of any stable sort. *)
Lemma insert_cell_stable k c l :
  List.filter (same_key k) (insert_cell c l) = List.filter (same_key k) (c :: l).
Proof.
  induction l as [| h t IH]; [reflexivity |].
  cbn [insert_cell]. destruct (key_ltb (sort_key h) (sort_key c)) eqn:E;
    [| reflexivity].
  cbn [List.filter] in *. rewrite IH.
  destruct (same_key k h) eqn:Eh, (same_key k c) eqn:Ec; try reflexivity.
  exfalso. unfold same_key in Eh, Ec.
  apply andb_true_iff in Eh as [_ Eh], Ec as [Ec _].
  apply negb_true_iff, key_ltb_false in Eh, Ec.
  pose proof (key_le_trans _ _ _ Ec Eh) as Hle.
  apply key_ltb_false in Hle. congruence.
Qed.

Lemma sort_cells_stable k cells :
  List.filter (same_key k) (sort_cells cells) = List.filter (same_key k) cells.
Proof.
  induction cells as [| c t IH]; [reflexivity |].
  cbn [sort_cells]. rewrite insert_cell_stable. cbn [List.filter].
  now rewrite IH.
Qed.

(** ** The walk and the scan *)

(** The walk only appends: [row_cells] stays a prefix of its result, and what
    is appended are texts of [rest], in the order of [rest]. *)
Lemma collect_row_app current_y rest row_cells :
  exists ext, collect_row current_y rest row_cells = row_cells ++ ext
              /\ ext `sublist_of` map cell_text rest.
Proof.
  revert row_cells.
  induction rest as [| c rest IH]; intros row_cells; cbn [collect_row map].
  - exists []. split; [now rewrite app_nil_r | constructor].
  - destruct (Py.Qltb _ 5).
    + destruct (IH (row_cells ++ [cell_text c])) as (ext & -> & Hsub).
      exists (cell_text c :: ext). rewrite <- app_assoc. split; [reflexivity |].
      now apply sublist_skip.
    + destruct (Py.Qltb _ (cell_y c)).
      * exists []. split; [now rewrite app_nil_r | apply sublist_nil_l].
      * destruct (IH row_cells) as (ext & -> & Hsub).
        exists ext. split; [reflexivity | now apply sublist_cons].
Qed.

Lemma find_row_shape cells r :
  find_row cells = Some r -> length r = 9%nat /\ head r = Some anchor.
Proof.
  induction cells as [| c rest IH]; cbn [find_row]; [discriminate |].
  destruct (String.eqb_spec (cell_text c) anchor) as [E | _]; [| exact IH].
  destruct (collect_row_app (cell_y c) rest [cell_text c]) as (ext & -> & _).
  destruct (Nat.leb_spec 9 (length ([cell_text c] ++ ext))) as [L | _]; [| exact IH].
  intros [= <-]. split.
  - cbn [length app] in *. rewrite length_take. lia.
  - simpl. now rewrite E.
Qed.

Lemma pages_loop_shape doc r :
  pages_loop doc = Returned r -> length r = 9%nat /\ head r = Some anchor.
Proof.
  induction doc as [| [e | blocks] doc IH]; simpl; try discriminate.
  destruct (blocks_cells blocks []) as [e | cells]; [discriminate |].
  destruct (find_row (sort_cells cells)) as [r' |] eqn:E; [| exact IH].
  intros [= <-]. eapply find_row_shape, E.
Qed.

(** ** The shape of the row, the zones of the walk, the scenario *)

(** C1: whenever [extract_table_data] returns a row, the row has exactly 9
    elements and its first element is the anchor literal. *)
Theorem C1_row_shape (fitz_open : list Byte.byte -> exn + document)
    (pdf_bytes : list Byte.byte) (r : row) :
  fst (extract_table_data fitz_open pdf_bytes) = Some r ->
  length r = 9%nat /\ head r = Some "KCZ".
Proof.
  unfold extract_table_data. destruct (fitz_open pdf_bytes) as [e | doc]; [discriminate |].
  destruct (pages_loop doc) as [r' | | e] eqn:E; simpl; try discriminate.
  intros [= <-]. eapply pages_loop_shape, E.
Qed.

Lemma C1_row_shape_witness :
  fst (extract_table_data (fun _ => inr kcz_doc) []) 
  = Some ["KCZ"; "DMX"; "O"; "03"; "TL"; "PR"; "004"; "R"; "14"]
  /\ length ["KCZ"; "DMX"; "O"; "03"; "TL"; "PR"; "004"; "R"; "14"] = 9%nat
  /\ head ["KCZ"; "DMX"; "O"; "03"; "TL"; "PR"; "004"; "R"; "14"] = Some "KCZ".
Proof.
  split; [reflexivity |].
  apply (C1_row_shape (fun _ => inr kcz_doc) []). reflexivity.
Defined.

(** The walk on doubles up to a cell that it reaches. *)
Lemma collect_row_d_reaches current_y pre rest row_cells :
  Forall (fun d => ends_walk_d current_y d = false) pre ->
  collect_row_d current_y (pre ++ rest) row_cells
  = collect_row_d current_y rest
      (row_cells ++ map dcell_text (List.filter (near_d current_y) pre)).
Proof.
  intros Hpre. revert row_cells.
  induction Hpre as [| d pre Hd _ IH]; intros row_cells;
    cbn [app collect_row_d List.filter map].
  - now rewrite app_nil_r.
  - unfold ends_walk_d in Hd. destruct (near_d current_y d).
    + rewrite IH, <- app_assoc. reflexivity.
    + cbn [negb andb] in Hd. rewrite Hd. apply IH.
Qed.

(** Where rounding changes neither test, the walk on doubles is the walk of
    the exact model. *)
Lemma collect_row_d_exact current_y rest row_cells :
  Forall (tests_agree current_y) rest ->
  collect_row_d current_y rest row_cells
  = collect_row (exact current_y) (map exact_cell rest) row_cells.
Proof.
  intros Hall. revert row_cells.
  induction Hall as [| c rest [Hn Hb] _ IH]; intros row_cells;
    cbn [collect_row_d collect_row map]; [reflexivity |].
  rewrite Hn, Hb. unfold near. cbn [exact_cell cell_y cell_text].
  destruct (Py.Qltb (Qabs (exact (dcell_y c) - exact current_y)) 5);
    [apply IH |].
  destruct (Py.Qltb (exact current_y + 10) (exact (dcell_y c)));
    [reflexivity | apply IH].
Qed.

(** On the page of the scenario the coordinates are small integers and both
    walks give the ten texts. *)
Example scenario_walk_on_doubles :
  Forall (tests_agree 100) kcz_dcells /\
  collect_row_d 100 kcz_dcells ["KCZ"]
  = ["KCZ"; "DMX"; "O"; "03"; "TL"; "PR"; "004"; "R"; "14"; "EXTRA"].
Proof.
  split; [| reflexivity].
  repeat constructor; vm_compute; reflexivity.
Qed.

(** C3, as stated, fails: the fragment at y = 5.1 follows the anchor at
    y = 0.1 in the sorted order and is less than 5 from it, but the double
    [5.1 - 0.1] is 5.0, so the walk does not append it. *)
Lemma C3_exact_threshold_counterexample :
  sort_cells [exact_cell tenth_fragment; exact_cell tenth_anchor]
  = [exact_cell tenth_anchor; exact_cell tenth_fragment] /\
  (Qabs (exact (dcell_y tenth_fragment) - exact (dcell_y tenth_anchor)) < 5)%Q /\
  PrimFloat.sub (dcell_y tenth_fragment) (dcell_y tenth_anchor) = 5%float /\
  collect_row_d (dcell_y tenth_anchor) [tenth_fragment] [dcell_text tenth_anchor]
  = [dcell_text tenth_anchor].
Proof.
  split; [reflexivity |]. split; [vm_compute; reflexivity |].
  split; reflexivity.
Qed.

(** C3, amended: the two tests are made on double-precision results.  For a
    cell [c] that the walk reaches, with what the walk has appended before it:
    [c] is appended when [abs(y - current_y)] computed in doubles is below 5;
    otherwise it ends the walk, unappended, when its y is above
    [current_y + 10] computed in doubles; otherwise it is skipped and the walk
    goes on. *)
Theorem C3_walk_tests_double (current_y : float) (pre : list dcell) (c : dcell)
    (post : list dcell) (row_cells : row) :
  Forall (fun d => ends_walk_d current_y d = false) pre ->
  (near_d current_y c = true ->
   collect_row_d current_y (pre ++ c :: post) row_cells
   = collect_row_d current_y post
       ((row_cells ++ map dcell_text (List.filter (near_d current_y) pre))
        ++ [dcell_text c])) /\
  (near_d current_y c = false /\ below_d current_y c = true ->
   collect_row_d current_y (pre ++ c :: post) row_cells
   = row_cells ++ map dcell_text (List.filter (near_d current_y) pre)) /\
  (near_d current_y c = false /\ below_d current_y c = false ->
   collect_row_d current_y (pre ++ c :: post) row_cells
   = collect_row_d current_y post
       (row_cells ++ map dcell_text (List.filter (near_d current_y) pre))).
Proof.
  intros Hpre. rewrite (collect_row_d_reaches _ _ _ _ Hpre).
  cbn [collect_row_d]. split; [| split].
  - now intros ->.
  - now intros [-> ->].
  - now intros [-> ->].
Qed.

Lemma C3_walk_tests_double_witness :
  collect_row_d 100 ([dzone_near; dzone_dead] ++ dzone_far :: [dzone_late]) ["KCZ"]
  = ["KCZ"] ++ map dcell_text (List.filter (near_d 100) [dzone_near; dzone_dead]) /\
  ["KCZ"] ++ map dcell_text (List.filter (near_d 100) [dzone_near; dzone_dead])
  = ["KCZ"; "near"].
Proof.
  split; [| reflexivity].
  refine (proj1 (proj2 (C3_walk_tests_double 100 [dzone_near; dzone_dead]
                          dzone_far [dzone_late] ["KCZ"] _)) _).
  - repeat constructor.
  - split; reflexivity.
Defined.

(** C8: the one-page document with the ten fragments of the scenario gives the
    first nine texts; [EXTRA] falls to the cap. *)
Theorem C8_scenario (fitz_open : list Byte.byte -> exn + document)
    (pdf_bytes : list Byte.byte) :
  fitz_open pdf_bytes = inr kcz_doc ->
  fst (extract_table_data fitz_open pdf_bytes)
  = Some ["KCZ"; "DMX"; "O"; "03"; "TL"; "PR"; "004"; "R"; "14"].
Proof. unfold extract_table_data. intros ->. reflexivity. Qed.

Lemma C8_scenario_witness :
  fst (extract_table_data (fun _ => inr kcz_doc) [])
  = Some ["KCZ"; "DMX"; "O"; "03"; "TL"; "PR"; "004"; "R"; "14"].
Proof. apply (C8_scenario (fun _ => inr kcz_doc) []). reflexivity. Defined.

(** ** Which anchor and which page win *)

Lemma find_row_first before a rest :
  first_qualifying before a rest ->
  find_row (before ++ a :: rest)
  = Some (take 9 (collect_row (cell_y a) rest [cell_text a])).
Proof.
  intros [[Ha Hlen] Hbefore].
  induction before as [| b bs IH]; cbn [find_row app].
  - apply String.eqb_eq in Ha. apply Nat.leb_le in Hlen. now rewrite Ha, Hlen.
  - assert (Hb : ~ qualifies b (bs ++ a :: rest)) by now apply (Hbefore []).
    assert (Hbs : forall b1 a' b2, bs = b1 ++ a' :: b2 ->
                                   ~ qualifies a' (b2 ++ a :: rest)).
    { intros b1 a' b2 ->. now apply (Hbefore (b :: b1)). }
    destruct (String.eqb_spec (cell_text b) anchor) as [E | _]; [| now apply IH].
    destruct (Nat.leb_spec 9 (length (collect_row (cell_y b) (bs ++ a :: rest)
                                        [cell_text b]))) as [L | _];
      [| now apply IH].
    destruct Hb. now split.
Qed.

Lemma find_row_None cells :
  find_row cells = None <->
  forall before a rest, cells = before ++ a :: rest -> ~ qualifies a rest.
Proof.
  induction cells as [| c cs IH]; cbn [find_row].
  - split; [| reflexivity]. intros _ [| ? ?] ? ? ?; discriminate.
  - split.
    + intros H before a rest E [Ha Hlen].
      destruct before as [| b bs]; injection E as -> E.
      * subst cs. apply String.eqb_eq in Ha. apply Nat.leb_le in Hlen.
        rewrite Ha, Hlen in H. discriminate.
      * destruct (String.eqb (cell_text b) anchor);
          [destruct (9 <=? _)%nat; [discriminate |] |];
          apply (proj1 IH H bs a rest E); now split.
    + intros H.
      assert (Hcs : find_row cs = None).
      { apply IH. intros before a rest ->. now apply (H (c :: before)). }
      destruct (String.eqb_spec (cell_text c) anchor) as [E | _]; [| exact Hcs].
      destruct (Nat.leb_spec 9 (length (collect_row (cell_y c) cs [cell_text c])))
        as [L | _]; [| exact Hcs].
      destruct (H [] c cs eq_refl). now split.
Qed.

Lemma pages_loop_app pre doc :
  pages_loop pre = Exhausted -> pages_loop (pre ++ doc) = pages_loop doc.
Proof.
  induction pre as [| [e | blocks] pre IH]; cbn [pages_loop app];
    [reflexivity | discriminate |].
  destruct (blocks_cells blocks []) as [e | cells]; [discriminate |].
  destruct (find_row (sort_cells cells)); [discriminate | exact IH].
Qed.

Lemma pages_loop_Exhausted doc :
  pages_loop doc = Exhausted <-> Forall no_row_page doc.
Proof.
  induction doc as [| p doc IH]; cbn [pages_loop].
  - split; [constructor | reflexivity].
  - rewrite Forall_cons, <- IH. unfold no_row_page. destruct p as [e | blocks].
    { split; [discriminate | intros [(? & ? & ? & _) _]; discriminate]. }
    destruct (blocks_cells blocks []) as [e | cells] eqn:Eb.
    { split; [discriminate |].
      intros [(? & ? & [= <-] & ? & _) _]. congruence. }
    destruct (find_row (sort_cells cells)) as [r |] eqn:Ef.
    + split; [discriminate |].
      intros [(? & cells' & [= <-] & Eb' & Hno) _].
      assert (cells' = cells) as -> by congruence.
      apply find_row_None in Hno. congruence.
    + split.
      * intros H. split; [| exact H].
        exists blocks, cells.
        split; [reflexivity | split; [exact Eb | now apply find_row_None]].
      * now intros [_ H].
Qed.

(** C6: pages are read in order; on the first page with a qualifying anchor
    the first such anchor gives the result, cut to 9 elements, whatever
    follows on that page or in the document. *)
Theorem C6_first_match_wins (fitz_open : list Byte.byte -> exn + document)
    (pdf_bytes : list Byte.byte) (pre : document) (blocks : list block)
    (post : document) (cells before : list cell) (a : cell) (rest : list cell) :
  fitz_open pdf_bytes = inr (pre ++ inr blocks :: post) ->
  pages_loop pre = Exhausted ->
  blocks_cells blocks [] = inr cells ->
  sort_cells cells = before ++ a :: rest ->
  first_qualifying before a rest ->
  extract_table_data fitz_open pdf_bytes
  = (Some (take 9 (collect_row (cell_y a) rest [cell_text a])),
     [DocOpen; DocClose])
  /\ length (take 9 (collect_row (cell_y a) rest [cell_text a])) = 9%nat.
Proof.
  intros Eo Hpre Eb Es Hq. unfold extract_table_data. rewrite Eo.
  rewrite (pages_loop_app _ _ Hpre). cbn [pages_loop]. rewrite Eb, Es.
  rewrite (find_row_first _ _ _ Hq). split; [reflexivity |].
  destruct Hq as [[_ Hlen] _]. rewrite length_take. lia.
Qed.

Lemma lone_anchor_first :
  first_qualifying [lone_anchor; title_cell] row_anchor row_rest.
Proof.
  split; [split; [reflexivity | vm_compute; lia] |].
  intros [| b1 [| b2 bs]] a' b2' [=]; subst; intros [Ha Hlen].
  - vm_compute in Hlen. lia.
  - discriminate.
  - destruct bs; discriminate.
Qed.

Lemma C6_first_match_wins_witness :
  extract_table_data (fun _ => inr three_page_doc) []
  = (Some ["KCZ"; "DMX"; "O"; "03"; "TL"; "PR"; "004"; "R"; "14"],
     [DocOpen; DocClose]).
Proof.
  exact (proj1 (C6_first_match_wins (fun _ => inr three_page_doc) []
                  [inr [text_block [mk_span "cover" 0 0]]]
                  [text_block two_anchor_spans]
                  [inl (FitzError "cannot load page")]
                  ([lone_anchor; title_cell] ++ row_anchor :: row_rest)
                  [lone_anchor; title_cell] row_anchor row_rest
                  eq_refl eq_refl eq_refl eq_refl lone_anchor_first)).
Defined.

(** C4, as stated, fails: on the page of [two_anchor_doc] the first anchor has
    one cell on its line, so the specification's scan gives no row and the
    document would be reported as not found; the code goes on to the second
    anchor of the same page and returns its row. *)
Lemma C4_first_anchor_only_counterexample :
  (exists cells,
      blocks_cells [text_block two_anchor_spans] [] = inr cells /\
      first_anchor_row (sort_cells cells) = None) /\
  fst (extract_table_data (fun _ => inr two_anchor_doc) [])
  = Some ["KCZ"; "DMX"; "O"; "03"; "TL"; "PR"; "004"; "R"; "14"].
Proof.
  split; [| reflexivity].
  exists ([lone_anchor; title_cell] ++ row_anchor :: row_rest).
  split; reflexivity.
Qed.

Lemma find_row_Some_first cells r :
  find_row cells = Some r ->
  exists before a rest,
    cells = before ++ a :: rest /\ first_qualifying before a rest /\
    r = take 9 (collect_row (cell_y a) rest [cell_text a]).
Proof.
  induction cells as [| c cs IH]; cbn [find_row]; [discriminate |].
  assert (Hcs : ~ qualifies c cs -> find_row cs = Some r ->
                exists before a rest,
                  c :: cs = before ++ a :: rest /\ first_qualifying before a rest /\
                  r = take 9 (collect_row (cell_y a) rest [cell_text a])).
  { intros Hc H. destruct (IH H) as (before & a & rest & -> & [Hq Hbefore] & Hr).
    exists (c :: before), a, rest. split; [reflexivity |]. split; [| exact Hr].
    split; [exact Hq |]. intros [| b b1] a' b2 E; injection E as -> E.
    - now subst b2.
    - now apply (Hbefore b1). }
  destruct (String.eqb_spec (cell_text c) anchor) as [E | E];
    [| apply Hcs; now intros [Ha _]].
  destruct (Nat.leb_spec 9 (length (collect_row (cell_y c) cs [cell_text c])))
    as [L | L]; [| apply Hcs; intros [_ Hlen]; lia].
  intros [= <-]. exists [], c, cs. split; [reflexivity |]. split; [| reflexivity].
  split; [now split |]. intros [| ? ?] ? ? ?; discriminate.
Qed.

Lemma pages_loop_Returned_first doc r :
  pages_loop doc = Returned r ->
  exists pre blocks post cells,
    doc = pre ++ inr blocks :: post /\ pages_loop pre = Exhausted /\
    blocks_cells blocks [] = inr cells /\ find_row (sort_cells cells) = Some r.
Proof.
  induction doc as [| [e | blocks] doc IH]; cbn [pages_loop]; try discriminate.
  destruct (blocks_cells blocks []) as [e | cells] eqn:Eb; [discriminate |].
  destruct (find_row (sort_cells cells)) as [r' |] eqn:Ef.
  - intros [= <-]. now exists [], blocks, doc, cells.
  - intros H. destruct (IH H) as (pre & blocks' & post & cells' & -> & Hpre & Hb & Hf).
    exists (inr blocks :: pre), blocks', post, cells'.
    split; [reflexivity |]. split; [| now split].
    cbn [pages_loop]. now rewrite Eb, Ef.
Qed.

(** C4, amended: on each page every cell whose text is the anchor is tried in
    sorted order, and the first one with at least 9 elements on its line gives
    the row, on the first page that has one; every returned row arises so; a
    page contributes no row exactly when none of its anchors has 9 elements
    on its line, and not-found is returned exactly when every page was read
    and none contributed a row. *)
Theorem C4_every_anchor_tried (fitz_open : list Byte.byte -> exn + document)
    (pdf_bytes : list Byte.byte) (doc : document) :
  fitz_open pdf_bytes = inr doc ->
  (forall pre blocks post cells before a rest,
      doc = pre ++ inr blocks :: post ->
      Forall no_row_page pre ->
      blocks_cells blocks [] = inr cells ->
      sort_cells cells = before ++ a :: rest ->
      first_qualifying before a rest ->
      extract_table_data fitz_open pdf_bytes
      = (Some (take 9 (collect_row (cell_y a) rest [cell_text a])),
         [DocOpen; DocClose])) /\
  (forall r,
      fst (extract_table_data fitz_open pdf_bytes) = Some r ->
      exists pre blocks post cells before a rest,
        doc = pre ++ inr blocks :: post /\
        Forall no_row_page pre /\
        blocks_cells blocks [] = inr cells /\
        sort_cells cells = before ++ a :: rest /\
        first_qualifying before a rest /\
        r = take 9 (collect_row (cell_y a) rest [cell_text a])) /\
  (extract_table_data fitz_open pdf_bytes = (None, [DocOpen; DocClose])
   <-> Forall no_row_page doc).
Proof.
  intros Eo. unfold extract_table_data. rewrite Eo. split; [| split].
  - intros pre blocks post cells before a rest -> Hpre Eb Es Hq.
    apply pages_loop_Exhausted in Hpre. rewrite (pages_loop_app _ _ Hpre).
    cbn [pages_loop]. now rewrite Eb, Es, (find_row_first _ _ _ Hq).
  - intros r. destruct (pages_loop doc) as [r' | | e] eqn:E; cbn [fst];
      try discriminate.
    intros [= <-]. apply pages_loop_Returned_first in E.
    destruct E as (pre & blocks & post & cells & -> & Hpre & Eb & Ef).
    apply find_row_Some_first in Ef.
    destruct Ef as (before & a & rest & Es & Hq & Hr).
    exists pre, blocks, post, cells, before, a, rest.
    split; [reflexivity |]. split; [now apply pages_loop_Exhausted |].
    split; [exact Eb | split; [exact Es | split; [exact Hq | exact Hr]]].
  - rewrite <- pages_loop_Exhausted.
    destruct (pages_loop doc); split; congruence.
Qed.

Lemma C4_every_anchor_tried_witness :
  extract_table_data (fun _ => inr two_anchor_doc) []
  = (Some ["KCZ"; "DMX"; "O"; "03"; "TL"; "PR"; "004"; "R"; "14"],
     [DocOpen; DocClose]).
Proof.
  exact (proj1 (C4_every_anchor_tried (fun _ => inr two_anchor_doc) []
                  two_anchor_doc eq_refl)
           [] [text_block two_anchor_spans] []
           ([lone_anchor; title_cell] ++ row_anchor :: row_rest)
           [lone_anchor; title_cell] row_anchor row_rest
           eq_refl (List.Forall_nil no_row_page) eq_refl eq_refl lone_anchor_first).
Defined.

(** ** Failures and the document handle *)

(** C2, as stated, fails: a buffer that cannot be opened and a buffer whose
    document has no anchor give the same returned value. *)
Lemma C2_same_value_counterexample :
  parse_failure sample_open [] (FitzError "cannot open empty document") /\
  anchor_not_found sample_open [Byte.x01] /\
  fst (extract_table_data sample_open [])
  = fst (extract_table_data sample_open [Byte.x01]).
Proof.
  split; [left; reflexivity |].
  split; [exists [inr []]; split; reflexivity | reflexivity].
Qed.

(** C2, amended: both failures return [None]; a parse failure is told from
    not-found by the [st.error] message it emits, which carries the
    exception, while not-found emits none. *)
Theorem C2_failures_differ_by_message
    (fitz_open : list Byte.byte -> exn + document) (pdf_bytes : list Byte.byte) :
  (forall e, parse_failure fitz_open pdf_bytes e ->
             fst (extract_table_data fitz_open pdf_bytes) = None /\
             StError e ∈ snd (extract_table_data fitz_open pdf_bytes)) /\
  (anchor_not_found fitz_open pdf_bytes ->
   fst (extract_table_data fitz_open pdf_bytes) = None /\
   forall e, StError e ∉ snd (extract_table_data fitz_open pdf_bytes)).
Proof.
  unfold extract_table_data. split.
  - intros e [-> | (doc & -> & ->)]; cbn [fst snd]; (split; [reflexivity |]).
    + apply list_elem_of_here.
    + apply list_elem_of_further, list_elem_of_here.
  - intros (doc & -> & ->); cbn [fst snd]. split; [reflexivity |].
    intros e H. apply list_elem_of_In in H. cbn [In] in H.
    destruct H as [H | [H | []]]; discriminate.
Qed.

Lemma C2_failures_differ_by_message_witness :
  (fst (extract_table_data sample_open []) = None /\
   StError (FitzError "cannot open empty document")
     ∈ snd (extract_table_data sample_open [])) /\
  (fst (extract_table_data sample_open [Byte.x01]) = None /\
   forall e, StError e ∉ snd (extract_table_data sample_open [Byte.x01])).
Proof.
  split.
  - apply (proj1 (C2_failures_differ_by_message sample_open [])).
    left; reflexivity.
  - apply (proj2 (C2_failures_differ_by_message sample_open [Byte.x01])).
    exists [inr []]. split; reflexivity.
Defined.

(** Where the code closes the document: the two ordinary returns, and the
    failure of [fitz.open], which leaves nothing to close. *)
Lemma handle_released_on_return (fitz_open : list Byte.byte -> exn + document)
    (pdf_bytes : list Byte.byte) :
  (forall e doc, fitz_open pdf_bytes = inr doc -> pages_loop doc <> Raised e) ->
  open_handles (snd (extract_table_data fitz_open pdf_bytes)) = 0%nat.
Proof.
  intros H. unfold extract_table_data.
  destruct (fitz_open pdf_bytes) as [e | doc]; [reflexivity |].
  destruct (pages_loop doc) as [r | | e] eqn:E; try reflexivity.
  now destruct (H e doc eq_refl).
Qed.

(** C9 fails on the code: an exception raised after the document was opened
    reaches the handler, which reports it and returns without closing. *)
Theorem C9_handle_left_open (fitz_open : list Byte.byte -> exn + document)
    (pdf_bytes : list Byte.byte) (doc : document) (e : exn) :
  fitz_open pdf_bytes = inr doc ->
  pages_loop doc = Raised e ->
  extract_table_data fitz_open pdf_bytes = (None, [DocOpen; StError e]) /\
  open_handles (snd (extract_table_data fitz_open pdf_bytes)) = 1%nat.
Proof.
  intros Eo Ep. unfold extract_table_data. rewrite Eo, Ep. split; reflexivity.
Qed.

Lemma C9_handle_left_open_witness :
  extract_table_data (fun _ => inr broken_page_doc) []
  = (None, [DocOpen; StError (FitzError "cannot load page")]) /\
  open_handles (snd (extract_table_data (fun _ => inr broken_page_doc) [])) = 1%nat.
Proof.
  apply (C9_handle_left_open (fun _ => inr broken_page_doc) [] broken_page_doc
           (FitzError "cannot load page")); reflexivity.
Defined.

(** ** The fragments and their order *)

Lemma span_cells_kept s acc cells :
  span_cells s acc = inr cells -> cells = acc ++ span_fragment s.
Proof.
  unfold span_cells, span_fragment.
  destruct (Py.nonempty (Py.strip (span_text s)));
    [| intros [= <-]; now rewrite app_nil_r].
  destruct (span_bbox s) as [| x0 [| y0 [| x1 [| y1 [| ? ?]]]]]; intros [= <-];
    now rewrite ?app_nil_r.
Qed.

Lemma spans_cells_kept spans acc cells :
  spans_cells spans acc = inr cells ->
  cells = acc ++ flat_map span_fragment spans.
Proof.
  revert acc. induction spans as [| s spans IH]; intros acc; cbn [spans_cells flat_map].
  - intros [= <-]. now rewrite app_nil_r.
  - destruct (span_cells s acc) as [e | cells'] eqn:E; [discriminate |].
    intros H. apply IH in H. apply span_cells_kept in E. subst.
    now rewrite app_assoc.
Qed.

Lemma lines_cells_kept lines acc cells :
  lines_cells lines acc = inr cells ->
  cells = acc ++ flat_map (fun l => flat_map span_fragment (line_spans l)) lines.
Proof.
  revert acc. induction lines as [| l lines IH]; intros acc; cbn [lines_cells flat_map].
  - intros [= <-]. now rewrite app_nil_r.
  - destruct (spans_cells (line_spans l) acc) as [e | cells'] eqn:E; [discriminate |].
    intros H. apply IH in H. apply spans_cells_kept in E. subst.
    now rewrite app_assoc.
Qed.

Lemma blocks_cells_kept blocks acc cells :
  blocks_cells blocks acc = inr cells -> cells = acc ++ kept_fragments blocks.
Proof.
  unfold kept_fragments. revert acc.
  induction blocks as [| b blocks IH]; intros acc; cbn [blocks_cells flat_map].
  - intros [= <-]. now rewrite app_nil_r.
  - destruct (block_type b =? 0)%Z.
    + destruct (lines_cells (block_lines b) acc) as [e | cells'] eqn:E; [discriminate |].
      intros H. apply IH in H. apply lines_cells_kept in E. subst.
      now rewrite app_assoc.
    + apply IH.
Qed.

Lemma find_row_sublist cells r :
  find_row cells = Some r -> r `sublist_of` map cell_text cells.
Proof.
  induction cells as [| c rest IH]; cbn [find_row map]; [discriminate |].
  assert (Hrest : find_row rest = Some r ->
                  r `sublist_of` cell_text c :: map cell_text rest).
  { intros H. now apply sublist_cons, IH. }
  destruct (String.eqb (cell_text c) anchor); [| exact Hrest].
  destruct (collect_row_app (cell_y c) rest [cell_text c]) as (ext & -> & Hsub).
  destruct (9 <=? _)%nat; [| exact Hrest].
  intros [= <-]. apply sublist_skip.
  etransitivity; [apply sublist_take | exact Hsub].
Qed.

(** C7: the cells of a page are the kept fragments; sorting permutes them
    into an order that is ascending in [round(y / 5)] and, within a band,
    ascending in [x]; any two cells are comparable in it; and the elements of
    the row follow that order. *)
Theorem C7_sorted_before_scan (blocks : list block) (cells : list cell) :
  blocks_cells blocks [] = inr cells ->
  cells = kept_fragments blocks /\
  sort_cells cells ≡ₚ cells /\
  StronglySorted
    (fun c1 c2 =>
       (Py.round (cell_y c1 / 5) < Py.round (cell_y c2 / 5))%Z \/
       (Py.round (cell_y c1 / 5) = Py.round (cell_y c2 / 5) /\
        (cell_x c1 <= cell_x c2)%Q))
    (sort_cells cells) /\
  (forall c1 c2, cell_le c1 c2 \/ cell_le c2 c1) /\
  (forall r, find_row (sort_cells cells) = Some r ->
             r `sublist_of` map cell_text (sort_cells cells)).
Proof.
  intros E. apply blocks_cells_kept in E. cbn [app] in E.
  split; [exact E |]. split; [apply sort_cells_perm |].
  split; [apply sort_cells_sorted |].
  split; [intros c1 c2; apply key_le_total | apply find_row_sublist].
Qed.

Lemma C7_sorted_before_scan_witness :
  blocks_cells scrambled_blocks [] = inr (kept_fragments scrambled_blocks) /\
  map cell_text (sort_cells (kept_fragments scrambled_blocks))
  = ["KCZ"; "DMX"; "O"; "03"; "TL"; "PR"; "004"; "R"; "14"] /\
  forall r, find_row (sort_cells (kept_fragments scrambled_blocks)) = Some r ->
            r `sublist_of` map cell_text (sort_cells (kept_fragments scrambled_blocks)).
Proof.
  split; [reflexivity |]. split; [reflexivity |].
  apply (C7_sorted_before_scan scrambled_blocks (kept_fragments scrambled_blocks)).
  reflexivity.
Defined.

(** ** The batch loop *)

Lemma string_app_cons a s t : String a s +:+ t = String a (s +:+ t).
Proof. reflexivity. Qed.

Lemma string_length_app s t :
  String.length (s +:+ t) = (String.length s + String.length t)%nat.
Proof.
  induction s as [| a s IH]; [reflexivity |].
  rewrite string_app_cons. cbn [String.length]. now rewrite IH.
Qed.

Lemma string_app_inv_tail s1 s2 t : s1 +:+ t = s2 +:+ t -> s1 = s2.
Proof.
  revert s2. induction s1 as [| a s1 IH]; intros [| b s2] H.
  - reflexivity.
  - apply (f_equal String.length) in H. rewrite !string_length_app in H.
    cbn [String.length] in H. lia.
  - apply (f_equal String.length) in H. rewrite !string_length_app in H.
    cbn [String.length] in H. lia.
  - rewrite !string_app_cons in H. injection H as -> H. f_equal. now apply IH.
Qed.

#[local] Instance numbered_name_inj base_name : Inj (=) (=) (numbered_name base_name).
Proof.
  intros k1 k2 H. unfold numbered_name in H.
  apply (inj (String.app base_name)), (inj (String.app "_")) in H.
  apply string_app_inv_tail in H. now apply (inj pretty) in H.
Qed.

(** If the loop uses up its fuel, every name it tried is taken. *)
Lemma dedup_loop_None fuel base_name generated final_new_name counter :
  dedup_loop fuel base_name generated final_new_name counter = None ->
  forall k, (counter <= k < counter + (fuel - 1))%nat ->
            numbered_name base_name k ∈ generated.
Proof.
  revert final_new_name counter.
  induction fuel as [| fuel IH]; intros cur counter H k Hk; [lia |].
  cbn [dedup_loop] in H. destruct (decide (cur ∈ generated)) as [_ | _]; [| discriminate].
  destruct (decide (k = counter)) as [-> | Hne].
  - destruct fuel as [| fuel]; [lia |]. cbn [dedup_loop] in H.
    now destruct (decide (numbered_name base_name counter ∈ generated)).
  - apply (IH _ _ H). lia.
Qed.

(** The [while] loop ends: there are more numbered names than taken ones. *)
Lemma dedup_loop_total base_name generated final_new_name counter :
  exists final,
    dedup_loop (enough_fuel generated) base_name generated final_new_name counter
    = Some final.
Proof.
  destruct (dedup_loop _ _ _ _ _) as [final |] eqn:E; [now exists final |].
  exfalso. pose proof (dedup_loop_None _ _ _ _ _ E) as Hall.
  unfold enough_fuel in Hall.
  set (tried := numbered_name base_name <$> seq counter (S (size generated))).
  assert (Hsub : list_to_set tried ⊆ generated).
  { intros n Hn. apply elem_of_list_to_set, list_elem_of_fmap in Hn.
    destruct Hn as (k & -> & Hk). apply elem_of_seq in Hk. apply Hall. lia. }
  apply subseteq_size in Hsub. rewrite size_list_to_set in Hsub.
  - unfold tried in Hsub. rewrite length_fmap, length_seq in Hsub. lia.
  - apply NoDup_fmap_2; [apply _ | apply NoDup_seq].
Qed.

(** What the loop returns is not taken. *)
Lemma dedup_loop_fresh fuel base_name generated final_new_name counter final :
  dedup_loop fuel base_name generated final_new_name counter = Some final ->
  final ∉ generated.
Proof.
  revert final_new_name counter.
  induction fuel as [| fuel IH]; intros cur counter; cbn [dedup_loop]; [discriminate |].
  destruct (decide (cur ∈ generated)) as [_ | Hfresh]; [apply IH |].
  now intros [= <-].
Qed.

(** The name the loop returns is the first candidate, or the unsanitized base
    name with a number. *)
Lemma dedup_loop_result fuel base_name generated final_new_name counter final :
  dedup_loop fuel base_name generated final_new_name counter = Some final ->
  final = final_new_name \/
  exists k, (counter <= k)%nat /\ final = numbered_name base_name k.
Proof.
  revert final_new_name counter.
  induction fuel as [| fuel IH]; intros cur counter; cbn [dedup_loop]; [discriminate |].
  destruct (decide (cur ∈ generated)) as [_ | _]; [| intros [= <-]; now left].
  intros H. right. apply IH in H. destruct H as [-> | (k & Hk & ->)].
  - now exists counter.
  - exists k. split; [lia | reflexivity].
Qed.

(** The first candidate is free of forbidden characters. *)
Lemma re_sub_clean s : has_forbidden (re_sub s +:+ ".pdf") = false.
Proof.
  induction s as [| c s IH]; [reflexivity |].
  cbn [re_sub]. rewrite string_app_cons. cbn [has_forbidden]. rewrite IH.
  destruct (forbidden c) eqn:E; [reflexivity | now rewrite E].
Qed.

Lemma batch_invariant_length handled st :
  batch_invariant handled st -> length handled = length (results st).
Proof.
  intros [H _]. apply (f_equal length) in H. rewrite !length_map in H. lia.
Qed.

Lemma record_failure_invariant handled f st :
  batch_invariant handled st ->
  batch_invariant (handled ++ [f]) (record_failure (name f) st).
Proof.
  intros Hinv. pose proof (batch_invariant_length _ _ Hinv) as Hlen.
  destruct Hinv as (Hn & Hc & Hz & Hs). unfold batch_invariant, record_failure.
  cbn [results zip_archive success_count fail_count].
  rewrite !map_app, Hn, length_app. cbn [map length].
  split; [reflexivity |]. split; [lia |]. split; [| exact Hs].
  rewrite zip_with_app by exact Hlen. rewrite omap_app.
  cbn. now rewrite app_nil_r.
Qed.

Lemma record_success_invariant handled f final st :
  batch_invariant handled st ->
  batch_invariant (handled ++ [f]) (record_success (name f) final (getvalue f) st).
Proof.
  intros Hinv. pose proof (batch_invariant_length _ _ Hinv) as Hlen.
  destruct Hinv as (Hn & Hc & Hz & Hs). unfold batch_invariant, record_success.
  cbn [results zip_archive success_count fail_count].
  rewrite !map_app, Hn, !length_app. cbn [map length].
  split; [reflexivity |]. split; [lia |]. split; [| lia].
  rewrite zip_with_app by exact Hlen. rewrite omap_app.
  cbn. now rewrite Hz.
Qed.

(** One pass through the body of the loop. *)
Lemma process_file_step fitz_open f handled st :
  batch_invariant handled st ->
  exists st' entry,
    process_file fitz_open f st = Some st' /\
    results st' = results st ++ [entry] /\
    Original_Name entry = name f /\
    batch_invariant (handled ++ [f]) st'.
Proof.
  intros Hinv. unfold process_file.
  destruct (fst (extract_table_data fitz_open (getvalue f))) as [td |].
  - destruct (Py.truthy td && (9 <=? length td)%nat).
    + destruct (dedup_loop_total (Py.join "_" (take 9 td)) (generated_new_names st)
                  (re_sub (Py.join "_" (take 9 td)) +:+ ".pdf") 1) as [final ->].
      eexists _, _. split; [reflexivity |]. split; [reflexivity |].
      split; [reflexivity | now apply record_success_invariant].
    + eexists _, _. split; [reflexivity |]. split; [reflexivity |].
      split; [reflexivity | now apply record_failure_invariant].
  - eexists _, _. split; [reflexivity |]. split; [reflexivity |].
    split; [reflexivity | now apply record_failure_invariant].
Qed.

Lemma main_loop_invariant fitz_open files handled st :
  batch_invariant handled st ->
  exists st', main_loop fitz_open files st = Some st' /\
              batch_invariant (handled ++ files) st'.
Proof.
  revert handled st. induction files as [| f files IH]; intros handled st Hinv.
  - exists st. rewrite app_nil_r. now split.
  - destruct (process_file_step fitz_open f handled st Hinv)
      as (st' & entry & E & _ & _ & Hinv').
    destruct (IH _ _ Hinv') as (st'' & E' & Hinv'').
    exists st''. cbn [main_loop]. rewrite E. rewrite <- app_assoc in Hinv''.
    now split.
Qed.

Lemma main_loop_app fitz_open files1 files2 st st1 :
  main_loop fitz_open files1 st = Some st1 ->
  main_loop fitz_open (files1 ++ files2) st = main_loop fitz_open files2 st1.
Proof.
  revert st. induction files1 as [| f files1 IH]; intros st; cbn [main_loop app].
  - now intros [= ->].
  - destruct (process_file fitz_open f st) as [st' |]; [apply IH | discriminate].
Qed.

Lemma initial_invariant : batch_invariant [] initial_state.
Proof. repeat split. Qed.

(** The names of a batch are pairwise distinct. *)
Lemma process_file_names fitz_open f st st' :
  names_invariant st -> process_file fitz_open f st = Some st' ->
  names_invariant st'.
Proof.
  intros [Hnd Hin]. unfold process_file.
  assert (Hfail : names_invariant (record_failure (name f) st)) by now split.
  destruct (fst (extract_table_data fitz_open (getvalue f))) as [td |];
    [| now intros [= <-]].
  destruct (Py.truthy td && (9 <=? length td)%nat); [| now intros [= <-]].
  destruct (dedup_loop _ _ _ _ _) as [final |] eqn:E; [| discriminate].
  intros [= <-]. apply dedup_loop_fresh in E.
  unfold names_invariant, record_success. cbn [zip_archive generated_new_names].
  rewrite map_app. cbn [map fst]. split.
  - apply NoDup_app. split; [exact Hnd |]. split; [| apply NoDup_singleton].
    intros n Hn Hf. apply list_elem_of_singleton in Hf. subst n.
    now apply E, Hin.
  - intros n.
    rewrite elem_of_app, list_elem_of_singleton, Hin, elem_of_union,
      elem_of_singleton.
    tauto.
Qed.

Lemma batch_names_distinct fitz_open files st :
  main_loop fitz_open files initial_state = Some st ->
  NoDup (map fst (zip_archive st)).
Proof.
  assert (H0 : names_invariant initial_state).
  { split; [constructor |]. intros n. cbn.
    split; [intros H; inversion H | intros H; now apply not_elem_of_empty in H]. }
  revert H0. generalize initial_state.
  induction files as [| f files IH]; intros st0 H0; cbn [main_loop].
  - intros [= <-]. apply H0.
  - destruct (process_file fitz_open f st0) as [st1 |] eqn:E; [| discriminate].
    apply IH. eapply process_file_names; eauto.
Qed.

(** C10: in a batch [handled ++ f :: remaining], handling [f] appends exactly
    one entry to [results], and afterwards there is one entry per handled
    file, the two counters add up to the number of handled files, and the
    archive holds exactly the entries of the successes. *)
Theorem C10_batch_invariant (fitz_open : list Byte.byte -> exn + document)
    (handled : list uploaded_file) (f : uploaded_file)
    (remaining : list uploaded_file) :
  exists st st' entry,
    main_loop fitz_open handled initial_state = Some st /\
    process_file fitz_open f st = Some st' /\
    main_loop fitz_open (handled ++ f :: remaining) initial_state
    = main_loop fitz_open remaining st' /\
    results st' = results st ++ [entry] /\
    Original_Name entry = name f /\
    length (results st') = length (handled ++ [f]) /\
    batch_invariant (handled ++ [f]) st'.
Proof.
  destruct (main_loop_invariant fitz_open handled [] initial_state initial_invariant)
    as (st & E & Hinv).
  cbn [app] in Hinv.
  destruct (process_file_step fitz_open f handled st Hinv)
    as (st' & entry & E' & Hres & Hname & Hinv').
  exists st, st', entry. split; [exact E |]. split; [exact E' |].
  split; [rewrite (main_loop_app _ _ _ _ _ E); cbn [main_loop]; now rewrite E' |].
  split; [exact Hres |]. split; [exact Hname |].
  split; [symmetry; now apply batch_invariant_length | exact Hinv'].
Qed.

(** C5 fails on the code: the numbered name is built from the base name as
    joined, not from the sanitized one, so the second of two files with the
    row [KCZ A/B C D E F G H I] gets a name with a slash. *)
Theorem C5_numbered_name_unsanitized :
  option_map (fun st => map fst (zip_archive st))
    (main_loop (fun _ => inr slash_doc) slash_uploads initial_state)
  = Some ["KCZ_A_B_C_D_E_F_G_H_I.pdf"; "KCZ_A/B_C_D_E_F_G_H_I_1.pdf"]
  /\ has_forbidden "KCZ_A/B_C_D_E_F_G_H_I_1.pdf" = true.
Proof. split; vm_compute; reflexivity. Qed.


(** ** Further properties of the extraction *)

Lemma sublist_Forall {A} (P : A -> Prop) (l1 l2 : list A) :
  l1 `sublist_of` l2 -> Forall P l2 -> Forall P l1.
Proof.
  induction 1 as [| x l1 l2 _ IH | x l1 l2 _ IH]; intros H.
  - constructor.
  - apply Forall_cons in H as [Hx H]. constructor; auto.
  - apply Forall_cons in H as [_ H]. auto.
Qed.

Lemma filter_length_perm {A} (f : A -> bool) (l1 l2 : list A) :
  l1 ≡ₚ l2 -> length (List.filter f l1) = length (List.filter f l2).
Proof.
  induction 1 as [| x l1 l2 _ IH | x y l | l1 l2 l3 _ IH1 _ IH2]; cbn [List.filter].
  - reflexivity.
  - destruct (f x); cbn [length]; now rewrite IH.
  - destruct (f x), (f y); reflexivity.
  - now rewrite IH1.
Qed.

(** The walk appends texts of near cells only. *)
Lemma collect_row_near_only current_y rest row_cells :
  exists picked,
    collect_row current_y rest row_cells = row_cells ++ map cell_text picked /\
    picked `sublist_of` List.filter (near current_y) rest.
Proof.
  revert row_cells.
  induction rest as [| c rest IH]; intros row_cells; cbn [collect_row List.filter].
  - exists []. split; [now rewrite app_nil_r | constructor].
  - fold (near current_y c). destruct (near current_y c).
    + destruct (IH (row_cells ++ [cell_text c])) as (picked & -> & Hsub).
      exists (c :: picked). rewrite <- app_assoc. split; [reflexivity |].
      now apply sublist_skip.
    + destruct (Py.Qltb _ (cell_y c)).
      * exists []. split; [now rewrite app_nil_r | apply sublist_nil_l].
      * exact (IH row_cells).
Qed.

Lemma find_row_anchor cells r :
  find_row cells = Some r ->
  exists before a rest,
    cells = before ++ a :: rest /\ cell_text a = anchor /\
    (9 <= length (collect_row (cell_y a) rest [cell_text a]))%nat /\
    r = take 9 (collect_row (cell_y a) rest [cell_text a]).
Proof.
  induction cells as [| c cs IH]; cbn [find_row]; [discriminate |].
  assert (Hcs : find_row cs = Some r ->
                exists before a rest,
                  c :: cs = before ++ a :: rest /\ cell_text a = anchor /\
                  (9 <= length (collect_row (cell_y a) rest [cell_text a]))%nat /\
                  r = take 9 (collect_row (cell_y a) rest [cell_text a])).
  { intros H. destruct (IH H) as (before & a & rest & -> & Ha & Hlen & Hr).
    now exists (c :: before), a, rest. }
  destruct (String.eqb_spec (cell_text c) anchor) as [E | _]; [| exact Hcs].
  destruct (Nat.leb_spec 9 (length (collect_row (cell_y c) cs [cell_text c])))
    as [L | _]; [| exact Hcs].
  intros [= <-]. now exists [], c, cs.
Qed.

Lemma pages_loop_Returned doc r :
  pages_loop doc = Returned r ->
  exists blocks cells,
    inr blocks ∈ doc /\ blocks_cells blocks [] = inr cells /\
    find_row (sort_cells cells) = Some r.
Proof.
  induction doc as [| [e | blocks] doc IH]; cbn [pages_loop]; try discriminate.
  destruct (blocks_cells blocks []) as [e | cells] eqn:Eb; [discriminate |].
  destruct (find_row (sort_cells cells)) as [r' |] eqn:Ef.
  - intros [= <-]. exists blocks, cells.
    split; [apply list_elem_of_here | now split].
  - intros H. destruct (IH H) as (blocks' & cells' & Hin & Hb & Hf).
    exists blocks', cells'. split; [now apply list_elem_of_further | now split].
Qed.

(** X1: a document whose pages are all read without exception and have no
    fragment with the anchor's text is reported as not found, with the
    document closed and no [st.error]. *)
Theorem no_anchor_not_found (fitz_open : list Byte.byte -> exn + document)
    (pdf_bytes : list Byte.byte) (doc : document) :
  fitz_open pdf_bytes = inr doc ->
  Forall anchorless_page doc ->
  extract_table_data fitz_open pdf_bytes = (None, [DocOpen; DocClose]).
Proof.
  intros Eo Hall. unfold extract_table_data. rewrite Eo.
  assert (E : pages_loop doc = Exhausted); [| now rewrite E].
  apply pages_loop_Exhausted. eapply Forall_impl; [exact Hall |].
  intros p (blocks & cells & -> & Eb & Hno). exists blocks, cells.
  split; [reflexivity |]. split; [exact Eb |].
  intros before a rest Es [Ha _].
  rewrite Forall_forall in Hno. apply (Hno a); [| exact Ha].
  rewrite <- (sort_cells_perm cells), Es.
  apply elem_of_app. right. apply list_elem_of_here.
Qed.

Lemma no_anchor_not_found_witness :
  extract_table_data (fun _ => inr cover_doc) [] = (None, [DocOpen; DocClose]).
Proof.
  apply (no_anchor_not_found (fun _ => inr cover_doc) [] cover_doc eq_refl).
  repeat constructor.
  - exists [text_block [mk_span "cover" 0 0]],
      [{| cell_text := "cover"; cell_x := 0; cell_y := 0 |}].
    split; [reflexivity |]. split; [reflexivity |].
    repeat constructor. discriminate.
  - exists [], []. repeat split. constructor.
Defined.

(** X2: a row comes only from a page that has a cell with the anchor's text
    and, counting that cell, at least 9 cells less than 5 from its y. *)
Theorem row_needs_nine_near (cells : list cell) (r : row) :
  find_row (sort_cells cells) = Some r ->
  exists a, a ∈ cells /\ cell_text a = anchor /\
            (9 <= length (List.filter (near (cell_y a)) cells))%nat.
Proof.
  intros Hf. apply find_row_anchor in Hf.
  destruct Hf as (before & a & rest & Es & Ha & Hlen & _).
  exists a. split; [| split; [exact Ha |]].
  - rewrite <- (sort_cells_perm cells), Es.
    apply elem_of_app. right. apply list_elem_of_here.
  - rewrite <- (filter_length_perm _ _ _ (sort_cells_perm cells)), Es.
    rewrite List.filter_app, length_app. cbn [List.filter].
    assert (En : near (cell_y a) a = true).
    { unfold near. apply Qltb_lt, Qabs_Qlt_condition. split; lra. }
    rewrite En. cbn [length].
    destruct (collect_row_near_only (cell_y a) rest [cell_text a])
      as (picked & Ec & Hsub).
    rewrite Ec, length_app, length_map in Hlen. cbn [length] in Hlen.
    apply sublist_length in Hsub. lia.
Qed.

Lemma row_needs_nine_near_witness :
  exists a, a ∈ kept_fragments [text_block kcz_spans] /\ cell_text a = anchor /\
            (9 <= length (List.filter (near (cell_y a))
                            (kept_fragments [text_block kcz_spans])))%nat.
Proof.
  apply (row_needs_nine_near (kept_fragments [text_block kcz_spans])
           ["KCZ"; "DMX"; "O"; "03"; "TL"; "PR"; "004"; "R"; "14"]).
  reflexivity.
Defined.

(** [strip] leaves no whitespace at either end. *)
Lemma lstrip_step s :
  Py.lstrip s = match Py.space_prefix s with
                | Some r => Py.lstrip r
                | None => s
                end.
Proof.
  destruct s as [| c [| d [| e s3]]]; cbn [Py.lstrip Py.space_prefix];
    try reflexivity.
  - now destruct (Py.isspace c).
  - destruct (Py.isspace c); [reflexivity |].
    now destruct (Py.two_byte_space c d).
  - destruct (Py.isspace c); [reflexivity |].
    destruct (Py.two_byte_space c d); [reflexivity |].
    now destruct (Py.three_byte_space c d e).
Qed.

Lemma all_space_step s :
  Py.all_space s = match s with
                   | EmptyString => true
                   | _ => match Py.space_prefix s with
                          | Some r => Py.all_space r
                          | None => false
                          end
                   end.
Proof.
  destruct s as [| c [| d [| e s3]]]; cbn [Py.all_space Py.space_prefix];
    try reflexivity.
  - now destruct (Py.isspace c).
  - destruct (Py.isspace c); [reflexivity |].
    now destruct (Py.two_byte_space c d).
  - destruct (Py.isspace c); [reflexivity |].
    destruct (Py.two_byte_space c d); [reflexivity |].
    now destruct (Py.three_byte_space c d e).
Qed.

Lemma space_prefix_shorter s r :
  Py.space_prefix s = Some r -> (String.length r < String.length s)%nat.
Proof.
  destruct s as [| c [| d [| e s3]]]; cbn [Py.space_prefix]; try discriminate.
  - destruct (Py.isspace c); intros [= <-]. cbn. lia.
  - destruct (Py.isspace c); [intros [= <-]; cbn; lia |].
    destruct (Py.two_byte_space c d); intros [= <-]. cbn. lia.
  - destruct (Py.isspace c); [intros [= <-]; cbn; lia |].
    destruct (Py.two_byte_space c d); [intros [= <-]; cbn; lia |].
    destruct (Py.three_byte_space c d e); intros [= <-]. cbn. lia.
Qed.

Lemma space_prefix_app s r t :
  Py.space_prefix s = Some r -> Py.space_prefix (s +:+ t) = Some (r +:+ t).
Proof.
  destruct s as [| c [| d [| e s3]]]; cbn [Py.space_prefix]; try discriminate.
  - destruct (Py.isspace c) eqn:Ec; intros [= <-].
    rewrite string_app_cons. cbn [Py.space_prefix]. now rewrite Ec.
  - rewrite !string_app_cons. cbn [Py.space_prefix].
    destruct (Py.isspace c); [now intros [= <-] |].
    destruct (Py.two_byte_space c d); now intros [= <-].
  - rewrite !string_app_cons. cbn [Py.space_prefix].
    destruct (Py.isspace c); [now intros [= <-] |].
    destruct (Py.two_byte_space c d); [now intros [= <-] |].
    destruct (Py.three_byte_space c d e); now intros [= <-].
Qed.

(** What [lstrip] returns does not start with whitespace. *)
Lemma lstrip_no_space s : Py.space_prefix (Py.lstrip s) = None.
Proof.
  remember (String.length s) as n eqn:En. revert s En.
  induction n as [n IH] using lt_wf_ind. intros s ->.
  rewrite lstrip_step. destruct (Py.space_prefix s) as [r |] eqn:E; [| exact E].
  apply (IH (String.length r)); [now apply space_prefix_shorter | reflexivity].
Qed.

Lemma all_space_app s t :
  Py.all_space s = true -> Py.all_space t = true -> Py.all_space (s +:+ t) = true.
Proof.
  remember (String.length s) as n eqn:En. revert s En.
  induction n as [n IH] using lt_wf_ind. intros s -> Hs Ht.
  destruct s as [| c s1]; [exact Ht |].
  rewrite all_space_step in Hs.
  destruct (Py.space_prefix (String c s1)) as [r |] eqn:E; [| discriminate].
  rewrite all_space_step, string_app_cons, <- string_app_cons.
  rewrite (space_prefix_app _ _ t E).
  apply (IH (String.length r)); [now apply space_prefix_shorter | reflexivity | exact Hs | exact Ht].
Qed.

(** [rstrip] cuts off a string of whitespace. *)
Lemma rstrip_split s :
  exists w, s = Py.rstrip s +:+ w /\ Py.all_space w = true.
Proof.
  induction s as [| c s1 IH]; [now exists EmptyString |].
  cbn [Py.rstrip]. destruct (Py.all_space (String c s1)) eqn:E.
  - now exists (String c s1).
  - destruct IH as (w & Hw & Hall). exists w. rewrite string_app_cons, <- Hw.
    now split.
Qed.

Lemma rstrip_idem s : Py.rstrip (Py.rstrip s) = Py.rstrip s.
Proof.
  induction s as [| c s1 IH]; [reflexivity |].
  cbn [Py.rstrip]. destruct (Py.all_space (String c s1)) eqn:E; [reflexivity |].
  cbn [Py.rstrip]. rewrite IH.
  destruct (Py.all_space (String c (Py.rstrip s1))) eqn:E'; [| reflexivity].
  destruct (rstrip_split s1) as (w & Hw & Hall).
  pose proof (all_space_app _ _ E' Hall) as H.
  rewrite string_app_cons, <- Hw in H. congruence.
Qed.

Lemma strip_idem s : Py.strip (Py.strip s) = Py.strip s.
Proof.
  unfold Py.strip. set (u := Py.lstrip s).
  assert (Hu : Py.space_prefix u = None) by apply lstrip_no_space.
  assert (Hp : Py.space_prefix (Py.rstrip u) = None).
  { destruct (Py.space_prefix (Py.rstrip u)) as [r |] eqn:E; [| reflexivity].
    destruct (rstrip_split u) as (w & Hw & _).
    apply (space_prefix_app _ _ w) in E. rewrite <- Hw in E. congruence. }
  rewrite (lstrip_step (Py.rstrip u)), Hp. apply rstrip_idem.
Qed.

Lemma kept_fragments_texts blocks :
  Forall (fun c => cell_text c <> "" /\ Py.strip (cell_text c) = cell_text c)
    (kept_fragments blocks).
Proof.
  unfold kept_fragments. rewrite Forall_forall. intros c Hc.
  apply list_elem_of_In, in_flat_map in Hc. destruct Hc as (b & _ & Hc).
  destruct (block_type b =? 0)%Z; [| destruct Hc].
  apply in_flat_map in Hc. destruct Hc as (l & _ & Hc).
  apply in_flat_map in Hc. destruct Hc as (sp & _ & Hc).
  unfold span_fragment in Hc.
  destruct (Py.strip (span_text sp)) as [| ch t] eqn:Et; cbn [Py.nonempty] in Hc;
    [destruct Hc |].
  destruct (span_bbox sp) as [| x0 [| y0 [| x1 [| y1 [| ? ?]]]]];
    cbn [In] in Hc; try contradiction.
  destruct Hc as [<- | []].
  cbn [cell_text]. split; [discriminate |].
  rewrite <- Et. apply strip_idem.
Qed.

(** X4: every token of a returned row is a non-empty text without
    whitespace at either end. *)
Theorem row_tokens_stripped (fitz_open : list Byte.byte -> exn + document)
    (pdf_bytes : list Byte.byte) (r : row) :
  fst (extract_table_data fitz_open pdf_bytes) = Some r ->
  Forall (fun t => t <> "" /\ Py.strip t = t) r.
Proof.
  unfold extract_table_data.
  destruct (fitz_open pdf_bytes) as [e | doc]; [discriminate |].
  destruct (pages_loop doc) as [r' | | e] eqn:E; cbn [fst]; try discriminate.
  intros [= <-]. apply pages_loop_Returned in E.
  destruct E as (blocks & cells & _ & Eb & Ef).
  apply find_row_sublist in Ef. apply blocks_cells_kept in Eb. cbn [app] in Eb.
  eapply sublist_Forall; [exact Ef |].
  apply Forall_fmap. rewrite (sort_cells_perm cells). subst cells.
  apply kept_fragments_texts.
Qed.

Lemma row_tokens_stripped_witness :
  Forall (fun t => t <> "" /\ Py.strip t = t)
    ["KCZ"; "DMX"; "O"; "03"; "TL"; "PR"; "004"; "R"; "14"].
Proof.
  apply (row_tokens_stripped (fun _ => inr kcz_doc) []). reflexivity.
Defined.

(** X5: the order in which the parser delivers the fragments of a page does
    not matter when no two different cells have the same sort key: two
    deliveries that are permutations of each other sort to the same list
    and give the same row. *)
Theorem parse_order_irrelevant (cells1 cells2 : list cell) :
  cells1 ≡ₚ cells2 ->
  (forall c1 c2, c1 ∈ cells1 -> c2 ∈ cells1 -> same_key c1 c2 = true -> c1 = c2) ->
  sort_cells cells1 = sort_cells cells2 /\
  find_row (sort_cells cells1) = find_row (sort_cells cells2).
Proof.
  intros Hp Hkey.
  assert (E : sort_cells cells1 = sort_cells cells2); [| now rewrite E].
  apply (StronglySorted_unique_strong cell_le).
  - intros c1 c2 H1 H2 H12 H21. apply Hkey.
    + now rewrite <- (sort_cells_perm cells1).
    + now rewrite Hp, <- (sort_cells_perm cells2).
    + unfold same_key. apply key_ltb_false in H12, H21. now rewrite H12, H21.
  - apply sort_cells_sorted.
  - apply sort_cells_sorted.
  - now rewrite !sort_cells_perm.
Qed.

Lemma parse_order_irrelevant_witness :
  sort_cells zone_cells = sort_cells (rev zone_cells) /\
  find_row (sort_cells zone_cells) = find_row (sort_cells (rev zone_cells)).
Proof.
  apply (parse_order_irrelevant zone_cells (rev zone_cells)).
  - apply Permutation_rev.
  - intros c1 c2 H1 H2.
    apply list_elem_of_In in H1, H2. cbn [zone_cells In] in H1, H2.
    destruct H1 as [<- | [<- | [<- | [<- | []]]]],
             H2 as [<- | [<- | [<- | [<- | []]]]];
      vm_compute; congruence.
Defined.

(** ** Further properties of the batch loop *)

Lemma main_loop_total fitz_open files st :
  exists st', main_loop fitz_open files st = Some st'.
Proof.
  revert st. induction files as [| f files IH]; intros st; cbn [main_loop].
  - now exists st.
  - assert (Hstep : exists st', process_file fitz_open f st = Some st').
    { unfold process_file.
      destruct (fst (extract_table_data fitz_open (getvalue f))) as [td |];
        [| now eexists].
      destruct (Py.truthy td && (9 <=? length td)%nat); [| now eexists].
      destruct (dedup_loop_total (Py.join "_" (take 9 td)) (generated_new_names st)
                  (re_sub (Py.join "_" (take 9 td)) +:+ ".pdf") 1) as [final ->].
      now eexists. }
    destruct Hstep as [st' ->]. apply IH.
Qed.

(** What every pass of the loop body keeps holds at the end of the loop. *)
Lemma main_loop_preserves fitz_open (P : batch_state -> Prop) files st st' :
  (forall f s s', f ∈ files -> P s -> process_file fitz_open f s = Some s' -> P s') ->
  P st -> main_loop fitz_open files st = Some st' -> P st'.
Proof.
  revert st. induction files as [| f files IH]; intros st Hstep H0; cbn [main_loop].
  - now intros [= <-].
  - destruct (process_file fitz_open f st) as [st1 |] eqn:E; [| discriminate].
    apply IH.
    + intros g s s' Hg. apply Hstep. now apply list_elem_of_further.
    + eapply Hstep; [apply list_elem_of_here | exact H0 | exact E].
Qed.

(** X7: every batch runs to its end, and the names written to the archive
    are pairwise distinct. *)
Theorem archive_names_distinct (fitz_open : list Byte.byte -> exn + document)
    (uploaded_files : list uploaded_file) :
  exists st, main_loop fitz_open uploaded_files initial_state = Some st /\
             NoDup (map fst (zip_archive st)).
Proof.
  destruct (main_loop_total fitz_open uploaded_files initial_state) as [st E].
  exists st. split; [exact E | eapply batch_names_distinct, E].
Qed.

(** The loop returns the first candidate that is not taken. *)
Lemma dedup_loop_first_free fuel base_name generated final_new_name counter final :
  dedup_loop fuel base_name generated final_new_name counter = Some final ->
  (final = final_new_name /\ final_new_name ∉ generated) \/
  (final_new_name ∈ generated /\
   exists k, (counter <= k)%nat /\ final = numbered_name base_name k /\
             (final ∉ generated) /\
             forall j, (counter <= j < k)%nat ->
                       numbered_name base_name j ∈ generated).
Proof.
  revert final_new_name counter.
  induction fuel as [| fuel IH]; intros cur counter; cbn [dedup_loop]; [discriminate |].
  destruct (decide (cur ∈ generated)) as [Hin | Hout];
    [| intros [= <-]; now left].
  intros H. right. split; [exact Hin |].
  apply IH in H. destruct H as [[-> Hfree] | (Htaken & k & Hk & -> & Hfree & Hbelow)].
  - exists counter. split; [lia |]. split; [reflexivity |]. split; [exact Hfree |].
    intros j Hj. lia.
  - exists k. split; [lia |]. split; [reflexivity |]. split; [exact Hfree |].
    intros j Hj. destruct (decide (j = counter)) as [-> | Hne]; [exact Htaken |].
    apply Hbelow. lia.
Qed.

Lemma extract_Some_length fitz_open pdf_bytes td :
  fst (extract_table_data fitz_open pdf_bytes) = Some td -> length td = 9%nat.
Proof.
  unfold extract_table_data.
  destruct (fitz_open pdf_bytes) as [e | doc]; [discriminate |].
  destruct (pages_loop doc) as [r | | e] eqn:E; cbn [fst]; try discriminate.
  intros [= <-]. eapply pages_loop_shape, E.
Qed.

(** The body of the loop for a file whose extraction returns a row. *)
Lemma process_file_Some fitz_open f st td :
  fst (extract_table_data fitz_open (getvalue f)) = Some td ->
  process_file fitz_open f st
  = match dedup_loop (enough_fuel (generated_new_names st)) (base_name_of td)
            (generated_new_names st) (new_name_of td) 1 with
    | Some final => Some (record_success (name f) final (getvalue f) st)
    | None => None
    end.
Proof.
  intros E. pose proof (extract_Some_length _ _ _ E) as Hlen.
  unfold process_file. rewrite E.
  assert (Ht : Py.truthy td = true) by (destruct td; [discriminate | reflexivity]).
  rewrite Ht, <- Hlen, firstn_all, Nat.leb_refl. reflexivity.
Qed.

(** X8: the naming rule.  A file whose extraction returns the row [td] is
    written to the archive under the sanitized join of [td] with [.pdf] when
    that name is free; otherwise under the unsanitized join with the smallest
    number, counted from 1, whose name is free.  The name is never one that the
    batch has used before. *)
Theorem naming_rule (fitz_open : list Byte.byte -> exn + document)
    (f : uploaded_file) (st : batch_state) (td : row) :
  fst (extract_table_data fitz_open (getvalue f)) = Some td ->
  exists final,
    process_file fitz_open f st
    = Some (record_success (name f) final (getvalue f) st) /\
    (final ∉ generated_new_names st) /\
    ((final = new_name_of td) \/
     (new_name_of td ∈ generated_new_names st /\
      exists k, (1 <= k)%nat /\ final = numbered_name (base_name_of td) k /\
                forall j, (1 <= j < k)%nat ->
                          numbered_name (base_name_of td) j ∈ generated_new_names st)).
Proof.
  intros E. rewrite (process_file_Some _ _ _ _ E).
  destruct (dedup_loop_total (base_name_of td) (generated_new_names st)
              (new_name_of td) 1) as [final Ed].
  rewrite Ed. exists final. split; [reflexivity |].
  split; [eapply dedup_loop_fresh, Ed |].
  apply dedup_loop_first_free in Ed.
  destruct Ed as [[-> _] | (Hin & k & Hk & -> & _ & Hbelow)]; [now left |].
  right. split; [exact Hin |]. now exists k.
Qed.

Lemma naming_rule_witness :
  exists final,
    process_file (fun _ => inr slash_doc) {| name := "first.pdf"; getvalue := [Byte.x01] |}
      initial_state
    = Some (record_success "first.pdf" final [Byte.x01] initial_state) /\
    (final ∉ generated_new_names initial_state) /\
    ((final = new_name_of ["KCZ"; "A/B"; "C"; "D"; "E"; "F"; "G"; "H"; "I"]) \/
     (new_name_of ["KCZ"; "A/B"; "C"; "D"; "E"; "F"; "G"; "H"; "I"]
        ∈ generated_new_names initial_state /\
      exists k, (1 <= k)%nat /\
                final = numbered_name
                          (base_name_of ["KCZ"; "A/B"; "C"; "D"; "E"; "F"; "G"; "H"; "I"]) k /\
                forall j, (1 <= j < k)%nat ->
                          numbered_name
                            (base_name_of ["KCZ"; "A/B"; "C"; "D"; "E"; "F"; "G"; "H"; "I"]) j
                          ∈ generated_new_names initial_state)).
Proof.
  apply (naming_rule (fun _ => inr slash_doc)
           {| name := "first.pdf"; getvalue := [Byte.x01] |} initial_state
           ["KCZ"; "A/B"; "C"; "D"; "E"; "F"; "G"; "H"; "I"]).
  reflexivity.
Defined.

Lemma has_forbidden_app s t :
  has_forbidden (s +:+ t) = has_forbidden s || has_forbidden t.
Proof.
  induction s as [| c s IH]; [reflexivity |].
  rewrite string_app_cons. cbn [has_forbidden]. rewrite IH. apply orb_assoc.
Qed.

Lemma pretty_N_go_clean x s :
  has_forbidden (pretty_N_go x s) = has_forbidden s.
Proof.
  revert s. induction (N.lt_wf_0 x) as [x _ IH]; intros s.
  destruct (decide (x = 0)%N) as [-> | Hx]; [now rewrite pretty_N_go_0 |].
  rewrite pretty_N_go_step by lia.
  rewrite IH by (apply N.div_lt; lia). cbn [has_forbidden].
  assert (E : forbidden (pretty_N_char (x `mod` 10)) = false);
    [| now rewrite E].
  unfold pretty_N_char. repeat case_match; reflexivity.
Qed.

Lemma pretty_nat_clean (k : nat) : has_forbidden (pretty k) = false.
Proof.
  unfold pretty, pretty_nat, pretty, pretty_N.
  destruct (decide (N.of_nat k = 0)%N); [reflexivity | apply pretty_N_go_clean].
Qed.

Lemma join_clean l :
  Forall (fun t => has_forbidden t = false) l ->
  has_forbidden (Py.join "_" l) = false.
Proof.
  induction 1 as [| t l Ht Hl IH]; [reflexivity |].
  cbn [Py.join]. destruct l as [| t' l']; [exact Ht |].
  rewrite !has_forbidden_app, Ht, IH. reflexivity.
Qed.

Lemma numbered_name_clean base_name k :
  has_forbidden base_name = false ->
  has_forbidden (numbered_name base_name k) = false.
Proof.
  intros H. unfold numbered_name.
  rewrite !has_forbidden_app, H, pretty_nat_clean. reflexivity.
Qed.

(** X9: when no token of the extracted rows has a forbidden character, no
    name in the archive has one, numbered names included. *)
Theorem clean_rows_clean_names (fitz_open : list Byte.byte -> exn + document)
    (uploaded_files : list uploaded_file) :
  clean_rows fitz_open uploaded_files ->
  exists st, main_loop fitz_open uploaded_files initial_state = Some st /\
             Forall (fun n => has_forbidden n = false) (map fst (zip_archive st)).
Proof.
  intros Hclean.
  destruct (main_loop_total fitz_open uploaded_files initial_state) as [st E].
  exists st. split; [exact E |].
  apply (main_loop_preserves fitz_open
           (fun s => Forall (fun n => has_forbidden n = false)
                       (map fst (zip_archive s)))
           uploaded_files initial_state st); [| constructor | exact E].
  intros f s s' Hf Hs.
  destruct (fst (extract_table_data fitz_open (getvalue f))) as [td |] eqn:Ex.
  - rewrite (process_file_Some _ _ _ _ Ex).
    destruct (dedup_loop _ _ _ _ _) as [final |] eqn:Ed; [| discriminate].
    intros [= <-]. cbn [record_success zip_archive]. rewrite map_app.
    apply Forall_app. split; [exact Hs |]. repeat constructor. cbn [fst].
    apply dedup_loop_result in Ed. destruct Ed as [-> | (k & _ & ->)].
    + apply re_sub_clean.
    + apply numbered_name_clean, join_clean, (Hclean f td Hf Ex).
  - unfold process_file. rewrite Ex. now intros [= <-].
Qed.

Lemma clean_rows_clean_names_witness :
  exists st, main_loop (fun _ => inr kcz_doc) kcz_uploads initial_state = Some st /\
             Forall (fun n => has_forbidden n = false) (map fst (zip_archive st)).
Proof.
  apply (clean_rows_clean_names (fun _ => inr kcz_doc) kcz_uploads).
  intros f td _ H. vm_compute in H. injection H as <-.
  repeat constructor.
Defined.

Lemma process_file_one_more_failure fitz_open f st1 st2 st1' :
  one_more_failure st1 st2 -> process_file fitz_open f st1 = Some st1' ->
  exists st2', process_file fitz_open f st2 = Some st2' /\
               one_more_failure st1' st2'.
Proof.
  intros (Hz & Hg & Hs & Hf). unfold process_file. rewrite Hg.
  destruct (fst (extract_table_data fitz_open (getvalue f))) as [td |].
  - destruct (Py.truthy td && (9 <=? length td)%nat).
    + destruct (dedup_loop _ _ _ _ _) as [final |]; [| discriminate].
      intros [= <-]. eexists. split; [reflexivity |].
      unfold one_more_failure, record_success. cbn. now rewrite Hz, Hg, Hs, Hf.
    + intros [= <-]. eexists. split; [reflexivity |].
      unfold one_more_failure, record_failure. cbn. now rewrite Hz, Hg, Hs, Hf.
  - intros [= <-]. eexists. split; [reflexivity |].
    unfold one_more_failure, record_failure. cbn. now rewrite Hz, Hg, Hs, Hf.
Qed.

Lemma main_loop_one_more_failure fitz_open files st1 st2 st1' :
  one_more_failure st1 st2 -> main_loop fitz_open files st1 = Some st1' ->
  exists st2', main_loop fitz_open files st2 = Some st2' /\
               one_more_failure st1' st2'.
Proof.
  revert st1 st2. induction files as [| f files IH]; intros st1 st2 H; cbn [main_loop].
  - intros [= <-]. now exists st2.
  - destruct (process_file fitz_open f st1) as [s1 |] eqn:E1; [| discriminate].
    destruct (process_file_one_more_failure _ _ _ _ _ H E1) as (s2 & -> & H').
    now apply IH.
Qed.

(** X10: a file whose extraction fails takes part in the batch only through
    [fail_count] and its entry of [results]: with the file removed from the
    batch, the archive, the names and the number of successes are the
    same. *)
Theorem failed_file_leaves_archive (fitz_open : list Byte.byte -> exn + document)
    (pre : list uploaded_file) (f : uploaded_file) (post : list uploaded_file) :
  fst (extract_table_data fitz_open (getvalue f)) = None ->
  exists st1 st2,
    main_loop fitz_open (pre ++ f :: post) initial_state = Some st1 /\
    main_loop fitz_open (pre ++ post) initial_state = Some st2 /\
    one_more_failure st1 st2.
Proof.
  intros Ex.
  destruct (main_loop_total fitz_open pre initial_state) as [st Epre].
  destruct (main_loop_total fitz_open post (record_failure (name f) st)) as [st1 E1].
  assert (H : one_more_failure (record_failure (name f) st) st) by now repeat split.
  destruct (main_loop_one_more_failure _ _ _ _ _ H E1) as (st2 & E2 & H').
  exists st1, st2. rewrite !(main_loop_app _ _ _ _ _ Epre). cbn [main_loop].
  unfold process_file at 1. rewrite Ex. now split.
Qed.

Lemma failed_file_leaves_archive_witness :
  exists st1 st2,
    main_loop sample_open
      ([{| name := "a.pdf"; getvalue := [Byte.x01] |}] ++
       {| name := "empty.pdf"; getvalue := [] |} ::
       [{| name := "b.pdf"; getvalue := [Byte.x02] |}]) initial_state = Some st1 /\
    main_loop sample_open
      ([{| name := "a.pdf"; getvalue := [Byte.x01] |}] ++
       [{| name := "b.pdf"; getvalue := [Byte.x02] |}]) initial_state = Some st2 /\
    one_more_failure st1 st2.
Proof.
  apply (failed_file_leaves_archive sample_open
           [{| name := "a.pdf"; getvalue := [Byte.x01] |}]
           {| name := "empty.pdf"; getvalue := [] |}
           [{| name := "b.pdf"; getvalue := [Byte.x02] |}]).
  reflexivity.
Defined.

Lemma re_sub_length s : String.length (re_sub s) = String.length s.
Proof. induction s as [| c s IH]; [reflexivity |]. cbn. now rewrite IH. Qed.

Lemma new_name_not_numbered td k :
  new_name_of td <> numbered_name (base_name_of td) k.
Proof.
  unfold new_name_of, numbered_name. intros H.
  apply (f_equal String.length) in H.
  rewrite !string_length_app, re_sub_length in H. cbn [String.length] in H. lia.
Qed.

Lemma copy_names_S td n :
  copy_names td (S n)
  = copy_names td n ++
    [match n with
     | O => new_name_of td
     | S _ => numbered_name (base_name_of td) n
     end].
Proof.
  destruct n as [| m]; [reflexivity |].
  cbn [copy_names]. rewrite seq_S, map_app. reflexivity.
Qed.

(** One more file with the row [td] after [n] of them. *)
Lemma process_file_copy fitz_open f st td n :
  fst (extract_table_data fitz_open (getvalue f)) = Some td ->
  map fst (zip_archive st) = copy_names td n ->
  (forall x, x ∈ generated_new_names st <-> x ∈ copy_names td n) ->
  exists st',
    process_file fitz_open f st = Some st' /\
    map fst (zip_archive st') = copy_names td (S n) /\
    (forall x, x ∈ generated_new_names st' <-> x ∈ copy_names td (S n)).
Proof.
  intros Ex Hz Hg.
  destruct (dedup_loop_total (base_name_of td) (generated_new_names st)
              (new_name_of td) 1) as [final Ed].
  assert (Hfinal : final = match n with
                           | O => new_name_of td
                           | S _ => numbered_name (base_name_of td) n
                           end).
  { apply dedup_loop_first_free in Ed.
    destruct Ed as [[-> Hfree] | (Htaken & k & Hk & -> & Hfree & Hbelow)].
    - destruct n as [| m]; [reflexivity |].
      destruct Hfree. apply Hg. apply list_elem_of_here.
    - apply Hg in Htaken. destruct n as [| m]; [inversion Htaken |].
      f_equal. rewrite Hg in Hfree.
      assert (Hin : forall j, (1 <= j <= m)%nat ->
                              numbered_name (base_name_of td) j ∈ copy_names td (S m)).
      { intros j Hj. apply list_elem_of_further, list_elem_of_fmap.
        exists j. split; [reflexivity | apply elem_of_seq; lia]. }
      destruct (Nat.lt_trichotomy k (S m)) as [Hlt | [-> | Hgt]];
        [| reflexivity |].
      + destruct Hfree. apply Hin. lia.
      + assert (Hsm : numbered_name (base_name_of td) (S m) ∈ copy_names td (S m)).
        { apply Hg, Hbelow. lia. }
        cbn [copy_names] in Hsm. apply elem_of_cons in Hsm.
        destruct Hsm as [Hsm | Hsm].
        * symmetry in Hsm. now apply new_name_not_numbered in Hsm.
        * apply list_elem_of_fmap in Hsm. destruct Hsm as (j & Hj & Hseq).
          apply (inj (numbered_name (base_name_of td))) in Hj. subst j.
          apply elem_of_seq in Hseq. lia. }
  rewrite (process_file_Some _ _ _ _ Ex), Ed. eexists. split; [reflexivity |].
  cbn [record_success zip_archive generated_new_names].
  rewrite map_app, Hz, copy_names_S, <- Hfinal. split; [reflexivity |].
  intros x. rewrite elem_of_union, elem_of_singleton, elem_of_app,
    list_elem_of_singleton, Hg. tauto.
Qed.

Lemma main_loop_copies fitz_open files st td n :
  Forall (fun f => fst (extract_table_data fitz_open (getvalue f)) = Some td) files ->
  map fst (zip_archive st) = copy_names td n ->
  (forall x, x ∈ generated_new_names st <-> x ∈ copy_names td n) ->
  exists st',
    main_loop fitz_open files st = Some st' /\
    map fst (zip_archive st') = copy_names td (n + length files).
Proof.
  intros Hall. revert st n.
  induction Hall as [| f files Hf _ IH]; intros st n Hz Hg; cbn [main_loop length].
  - exists st. now rewrite Nat.add_0_r.
  - destruct (process_file_copy _ _ _ _ _ Hf Hz Hg) as (st1 & -> & Hz1 & Hg1).
    destruct (IH _ _ Hz1 Hg1) as (st' & E & Hz').
    exists st'. split; [exact E |]. now rewrite Nat.add_succ_r.
Qed.

(** X11: when all the files of a batch have the same row, the first is
    written under the sanitized name and the following ones under the
    unsanitized base name numbered 1, 2, 3, ... in upload order. *)
Theorem same_row_numbering (fitz_open : list Byte.byte -> exn + document)
    (uploaded_files : list uploaded_file) (td : row) :
  Forall (fun f => fst (extract_table_data fitz_open (getvalue f)) = Some td)
    uploaded_files ->
  exists st,
    main_loop fitz_open uploaded_files initial_state = Some st /\
    map fst (zip_archive st) = copy_names td (length uploaded_files).
Proof.
  intros Hall.
  apply (main_loop_copies fitz_open uploaded_files initial_state td 0 Hall).
  - reflexivity.
  - intros x. cbn. split; [intros H; now apply not_elem_of_empty in H |].
    intros H. inversion H.
Qed.

Lemma same_row_numbering_witness :
  exists st,
    main_loop (fun _ => inr slash_doc) slash_uploads initial_state = Some st /\
    map fst (zip_archive st)
    = copy_names ["KCZ"; "A/B"; "C"; "D"; "E"; "F"; "G"; "H"; "I"] 2.
Proof.
  apply (same_row_numbering (fun _ => inr slash_doc) slash_uploads
           ["KCZ"; "A/B"; "C"; "D"; "E"; "F"; "G"; "H"; "I"]).
  repeat constructor.
Defined.

(** ** The progress bar, the report and the download *)

Lemma progress_value_mono i j n :
  (i <= j)%nat -> (progress_value i n <= progress_value j n)%Q.
Proof.
  intros H. unfold progress_value, Qdiv. apply Qmult_le_compat_r.
  - rewrite <- Zle_Qle. lia.
  - apply Qinv_le_0_compat. change 0%Q with (inject_Z 0). rewrite <- Zle_Qle. lia.
Qed.

Lemma progress_value_range i n :
  (i < n)%nat -> (0 <= progress_value i n <= 1)%Q.
Proof.
  intros H. unfold progress_value.
  assert (Hn : (0 < inject_Z (Z.of_nat n))%Q).
  { change 0%Q with (inject_Z 0). rewrite <- Zlt_Qlt. lia. }
  split.
  - apply Qle_shift_div_l; [exact Hn |]. rewrite Qmult_0_l.
    change 0%Q with (inject_Z 0). rewrite <- Zle_Qle. lia.
  - apply Qle_shift_div_r; [exact Hn |]. rewrite Qmult_1_l.
    rewrite <- Zle_Qle. lia.
Qed.

Lemma progress_values_app l1 l2 :
  progress_values (l1 ++ l2) = progress_values l1 ++ progress_values l2.
Proof. apply flat_map_app. Qed.

Lemma progress_values_errors tr : progress_values (error_messages tr) = [].
Proof.
  induction tr as [| [| | e] tr IH]; cbn; auto.
Qed.

Lemma progress_values_files fitz_open n k files :
  progress_values
    (concat (imap (fun i => file_calls fitz_open n (k + i)) files))
  = map (fun i => progress_value i n) (seq k (length files)).
Proof.
  revert k. induction files as [| f files IH]; intros k; [reflexivity |].
  cbn [imap concat length seq map]. rewrite progress_values_app.
  unfold file_calls at 1. rewrite !progress_values_app, progress_values_errors.
  cbn [progress_values flat_map app]. rewrite Nat.add_0_r. f_equal.
  rewrite <- IH. f_equal. f_equal. apply imap_ext. intros i x _.
  unfold compose. now rewrite Nat.add_succ_r.
Qed.

(** The trace of a run of the batch. *)
Lemma main_pressed fitz_open uploaded_files :
  uploaded_files <> [] ->
  exists st,
    main_loop fitz_open uploaded_files initial_state = Some st /\
    main fitz_open uploaded_files true
    = Some ([SetPageConfig; Title; Markdown; FileUploader] ++
            [Info ("**" +:+ pretty (length uploaded_files) +:+
                   "** file(s) selected. Click the button below to start processing.");
             Button] ++
            [Progress 0 (Some "Starting...")] ++
            concat (imap (file_calls fitz_open (length uploaded_files)) uploaded_files) ++
            report_calls st).
Proof.
  intros Hne.
  destruct (main_loop_total fitz_open uploaded_files initial_state) as [st E].
  exists st. split; [exact E |]. unfold main. rewrite E.
  destruct uploaded_files; [contradiction | reflexivity].
Qed.

Lemma progress_values_report st : progress_values (report_calls st) = [1%Q].
Proof.
  unfold report_calls. rewrite progress_values_app.
  destruct (0 <? success_count st)%nat; reflexivity.
Qed.

Lemma progress_values_main fitz_open uploaded_files trace :
  uploaded_files <> [] ->
  main fitz_open uploaded_files true = Some trace ->
  progress_values trace
  = 0%Q :: map (fun i => progress_value i (length uploaded_files))
             (seq 0 (length uploaded_files)) ++ [1%Q].
Proof.
  intros Hne. destruct (main_pressed fitz_open uploaded_files Hne) as (st & _ & ->).
  intros H. apply (inj Some) in H. subst trace.
  rewrite !progress_values_app, progress_values_report.
  rewrite (progress_values_files fitz_open _ 0). reflexivity.
Qed.

Lemma progress_values_sorted n k m :
  StronglySorted Qle (map (fun i => progress_value i n) (seq k m)).
Proof.
  revert k. induction m as [| m IH]; intros k; cbn [seq map]; constructor.
  - apply IH.
  - apply Forall_fmap, Forall_forall. intros j Hj. apply elem_of_seq in Hj.
    apply progress_value_mono. lia.
Qed.

(** X12: the values passed to the progress bar in a run lie between 0 and 1
    and never decrease; there is one per file besides the first and the last
    call, and the last value is 1.  In particular the division of line 145 is
    by a positive number. *)
Theorem progress_in_range (fitz_open : list Byte.byte -> exn + document)
    (uploaded_files : list uploaded_file) (trace : list ui_call) :
  uploaded_files <> [] ->
  main fitz_open uploaded_files true = Some trace ->
  Forall (fun v => (0 <= v <= 1)%Q) (progress_values trace) /\
  StronglySorted Qle (progress_values trace) /\
  length (progress_values trace) = (length uploaded_files + 2)%nat /\
  last (progress_values trace) = Some 1%Q.
Proof.
  intros Hne Hm. rewrite (progress_values_main _ _ _ Hne Hm).
  set (n := length uploaded_files).
  assert (Hrange : Forall (fun v => (0 <= v <= 1)%Q)
                     (map (fun i => progress_value i n) (seq 0 n))).
  { apply Forall_fmap, Forall_forall. intros i Hi. apply elem_of_seq in Hi.
    apply progress_value_range. lia. }
  split; [| split; [| split]].
  - constructor; [split; discriminate |].
    apply Forall_app. split; [exact Hrange |].
    repeat constructor; discriminate.
  - constructor.
    + apply StronglySorted_app_2.
      * intros v w Hv Hw. apply list_elem_of_singleton in Hw. subst w.
        rewrite Forall_forall in Hrange. now apply Hrange.
      * apply progress_values_sorted.
      * repeat constructor.
    + apply Forall_app. split.
      * eapply Forall_impl; [exact Hrange |]. now intros v [H _].
      * repeat constructor. discriminate.
  - cbn [length]. rewrite length_app, length_map, length_seq. cbn [length]. lia.
  - rewrite app_comm_cons. apply last_snoc.
Qed.

Lemma progress_in_range_witness :
  exists trace,
    main sample_open mixed_uploads true = Some trace /\
    Forall (fun v => (0 <= v <= 1)%Q) (progress_values trace) /\
    StronglySorted Qle (progress_values trace) /\
    length (progress_values trace) = (length mixed_uploads + 2)%nat /\
    last (progress_values trace) = Some 1%Q.
Proof.
  eexists. split; [reflexivity |].
  apply (progress_in_range sample_open mixed_uploads); [discriminate | reflexivity].
Defined.

Lemma Forall_concat_imap {A B} (P : B -> Prop) (g : nat -> A -> list B) (l : list A) :
  (forall i x, Forall P (g i x)) -> Forall P (concat (imap g l)).
Proof.
  revert g. induction l as [| x l IH]; intros g Hg; cbn [imap concat].
  - constructor.
  - apply Forall_app. split; [apply Hg | apply IH]. intros i y. apply Hg.
Qed.

Lemma flat_map_silent {A B} (g : A -> list B) (l : list A) :
  Forall (fun c => g c = []) l -> flat_map g l = [].
Proof.
  induction 1 as [| c l Hc _ IH]; [reflexivity |].
  cbn [flat_map]. now rewrite Hc, IH.
Qed.

(** The calls of the loop body are status texts, error messages and progress
    updates only. *)
Lemma file_calls_kinds fitz_open n i f :
  Forall (fun c => match c with
                   | StatusText _ | ErrorMessage _ | Progress _ _ => True
                   | _ => False
                   end) (file_calls fitz_open n i f).
Proof.
  unfold file_calls. constructor; [exact I |].
  apply Forall_app. split; [| repeat constructor].
  induction (snd (extract_table_data fitz_open (getvalue f))) as [| [| | e] tr IH];
    cbn; auto.
Qed.

Lemma loop_calls_silent {B} fitz_open (g : ui_call -> list B) n files :
  (forall m, g (StatusText m) = []) -> (forall e, g (ErrorMessage e) = []) ->
  (forall v t, g (Progress v t) = []) ->
  flat_map g (concat (imap (file_calls fitz_open n) files)) = [].
Proof.
  intros H1 H2 H3. apply flat_map_silent, Forall_concat_imap. intros i f.
  eapply Forall_impl; [apply file_calls_kinds |].
  intros [] Hc; cbn in Hc; try contradiction; auto.
Qed.

Lemma archive_length (handled : list uploaded_file) (rs : list result_entry) :
  length handled = length rs ->
  length (omap archive_entry (zip handled rs)) = length (List.filter is_success rs).
Proof.
  revert handled. induction rs as [| r rs IH]; intros [| f handled] H;
    try discriminate; [reflexivity |].
  injection H as H. specialize (IH handled H).
  change (zip (f :: handled) (r :: rs)) with ((f, r) :: zip handled rs).
  change (omap archive_entry ((f, r) :: zip handled rs))
    with (match archive_entry (f, r) with
          | Some e => e :: omap archive_entry (zip handled rs)
          | None => omap archive_entry (zip handled rs)
          end).
  cbn [List.filter]. unfold archive_entry at 1, is_success at 1. cbn [fst snd].
  destruct (Status r); cbn [length]; now rewrite IH.
Qed.

Lemma batch_invariant_counts handled st :
  batch_invariant handled st ->
  success_count st = length (List.filter is_success (results st)) /\
  fail_count st = length (List.filter is_failed (results st)).
Proof.
  intros Hinv. pose proof (batch_invariant_length _ _ Hinv) as Hlen.
  destruct Hinv as (_ & Hsum & Hz & Hs).
  assert (E : success_count st = length (List.filter is_success (results st))).
  { rewrite Hs, Hz. now apply archive_length. }
  split; [exact E |].
  assert (Hpart : (length (List.filter is_success (results st)) +
                   length (List.filter is_failed (results st)) =
                   length (results st))%nat).
  { clear. induction (results st) as [| r rs IH]; [reflexivity |].
    cbn [List.filter]. unfold is_failed at 1. destruct (is_success r);
      cbn [negb length]; lia. }
  lia.
Qed.

(** X13: after a run the download button is offered exactly when at least
    one file was written to the archive, and then its data is the whole
    archive, one entry per row of the table with status Success. *)
Theorem download_offered_iff_success (fitz_open : list Byte.byte -> exn + document)
    (uploaded_files : list uploaded_file) (trace : list ui_call) :
  uploaded_files <> [] ->
  main fitz_open uploaded_files true = Some trace ->
  exists st,
    main_loop fitz_open uploaded_files initial_state = Some st /\
    offered_download trace
    = match zip_archive st with
      | [] => None
      | _ :: _ => Some (zip_archive st)
      end /\
    length (zip_archive st) = length (List.filter is_success (results st)).
Proof.
  intros Hne Hm. destruct (main_pressed fitz_open uploaded_files Hne) as (st & E & Et).
  rewrite Et in Hm. apply (inj Some) in Hm. subst trace.
  destruct (main_loop_invariant fitz_open uploaded_files [] initial_state
              initial_invariant) as (st' & E' & Hinv).
  rewrite E in E'. injection E' as <-. cbn [app] in Hinv.
  pose proof (batch_invariant_counts _ _ Hinv) as [Hs _].
  destruct Hinv as (_ & _ & _ & Hlen).
  exists st. split; [exact E |]. split; [| now rewrite <- Hlen].
  unfold offered_download. rewrite !flat_map_app.
  rewrite loop_calls_silent by reflexivity. unfold report_calls.
  rewrite flat_map_app. cbn [flat_map app]. rewrite Hlen.
  destruct (zip_archive st); reflexivity.
Qed.

Lemma download_offered_iff_success_witness :
  exists st,
    main_loop (fun _ => inr slash_doc) slash_uploads initial_state = Some st /\
    offered_download
      (default [] (main (fun _ => inr slash_doc) slash_uploads true))
    = match zip_archive st with
      | [] => None
      | _ :: _ => Some (zip_archive st)
      end /\
    length (zip_archive st) = length (List.filter is_success (results st)).
Proof.
  apply (download_offered_iff_success (fun _ => inr slash_doc) slash_uploads);
    [discriminate | reflexivity].
Defined.

Lemma style_status_rows rs :
  style_status (map Status rs)
  = map (fun r => if is_success r then "color: green" else "color: red") rs.
Proof.
  unfold style_status, is_success. rewrite map_map. apply map_ext.
  intros r. now destruct (Status r).
Qed.

(** X14: the report of a run is consistent: the table has one row per
    uploaded file, in upload order; a row is styled green when its status is
    Success and red otherwise; and the summary line gives the numbers of the
    rows of either status. *)
Theorem report_consistent (fitz_open : list Byte.byte -> exn + document)
    (uploaded_files : list uploaded_file) (trace : list ui_call) :
  uploaded_files <> [] ->
  main fitz_open uploaded_files true = Some trace ->
  exists rows,
    shown_tables trace
    = [(rows, map (fun r => if is_success r then "color: green" else "color: red")
                rows)] /\
    map Original_Name rows = map name uploaded_files /\
    summaries trace
    = ["Processing complete! Success: "
       +:+ pretty (length (List.filter is_success rows))
       +:+ ", Failed: " +:+ pretty (length (List.filter is_failed rows))].
Proof.
  intros Hne Hm. destruct (main_pressed fitz_open uploaded_files Hne) as (st & E & Et).
  rewrite Et in Hm. apply (inj Some) in Hm. subst trace.
  destruct (main_loop_invariant fitz_open uploaded_files [] initial_state
              initial_invariant) as (st' & E' & Hinv).
  rewrite E in E'. injection E' as <-. cbn [app] in Hinv.
  pose proof (batch_invariant_counts _ _ Hinv) as [Hs Hf].
  destruct Hinv as (Hnames & _).
  exists (results st). split; [| split; [exact Hnames |]].
  - unfold shown_tables. rewrite !flat_map_app.
    rewrite loop_calls_silent by reflexivity. unfold report_calls.
    rewrite flat_map_app, style_status_rows. cbn [flat_map app].
    destruct (0 <? success_count st)%nat; reflexivity.
  - unfold summaries. rewrite !flat_map_app.
    rewrite loop_calls_silent by reflexivity. unfold report_calls.
    rewrite flat_map_app, Hs, Hf. cbn [flat_map app].
    destruct (0 <? _)%nat; reflexivity.
Qed.

Lemma report_consistent_witness :
  exists rows,
    shown_tables (default [] (main sample_open mixed_uploads true))
    = [(rows, map (fun r => if is_success r then "color: green" else "color: red")
                rows)] /\
    map Original_Name rows = map name mixed_uploads /\
    summaries (default [] (main sample_open mixed_uploads true))
    = ["Processing complete! Success: "
       +:+ pretty (length (List.filter is_success rows))
       +:+ ", Failed: " +:+ pretty (length (List.filter is_failed rows))].
Proof.
  apply (report_consistent sample_open mixed_uploads); [discriminate | reflexivity].
Defined.

(** One extraction shows at most one error, and only when it returns no
    row. *)
Lemma file_calls_errors fitz_open n i f :
  (length (shown_errors (file_calls fitz_open n i f))
   <= if extraction_fails fitz_open f then 1 else 0)%nat.
Proof.
  unfold file_calls, extraction_fails, shown_errors, extract_table_data.
  destruct (fitz_open (getvalue f)) as [e | doc]; [cbn; lia |].
  destruct (pages_loop doc); cbn; lia.
Qed.

Lemma loop_calls_errors fitz_open (g : nat -> uploaded_file -> list ui_call) files :
  (forall i f, (length (shown_errors (g i f))
                <= if extraction_fails fitz_open f then 1 else 0)%nat) ->
  (length (shown_errors (concat (imap g files)))
   <= length (List.filter (extraction_fails fitz_open) files))%nat.
Proof.
  revert g. induction files as [| f files IH]; intros g Hg; [cbn; lia |].
  cbn [imap concat List.filter]. unfold shown_errors. rewrite flat_map_app, length_app.
  fold (shown_errors (g 0%nat f)).
  fold (shown_errors (concat (imap (g ∘ S) files))).
  specialize (Hg 0%nat f) as H0.
  assert (Hrest : (length (shown_errors (concat (imap (g ∘ S) files)))
                   <= length (List.filter (extraction_fails fitz_open) files))%nat).
  { apply IH. intros i x. apply Hg. }
  destruct (extraction_fails fitz_open f); cbn [length]; lia.
Qed.

Lemma process_file_fail_count fitz_open f st st' :
  process_file fitz_open f st = Some st' ->
  fail_count st'
  = (fail_count st + if extraction_fails fitz_open f then 1 else 0)%nat.
Proof.
  unfold extraction_fails.
  destruct (fst (extract_table_data fitz_open (getvalue f))) as [td |] eqn:Ex.
  - rewrite (process_file_Some _ _ _ _ Ex).
    destruct (dedup_loop _ _ _ _ _); [| discriminate].
    intros [= <-]. cbn. lia.
  - unfold process_file. rewrite Ex. intros [= <-]. cbn. lia.
Qed.

Lemma main_loop_fail_count fitz_open files st st' :
  main_loop fitz_open files st = Some st' ->
  fail_count st'
  = (fail_count st + length (List.filter (extraction_fails fitz_open) files))%nat.
Proof.
  revert st. induction files as [| f files IH]; intros st; cbn [main_loop List.filter].
  - intros [= <-]. cbn. lia.
  - destruct (process_file fitz_open f st) as [st1 |] eqn:E; [| discriminate].
    intros H. apply IH in H. apply process_file_fail_count in E.
    destruct (extraction_fails fitz_open f); cbn [length]; lia.
Qed.

(** X15: a file is counted as failed exactly when its extraction returns no
    row (the length test of line 114 never rejects a returned row), and the
    error messages of a run are at most as many as the failed files: an
    [st.error] is shown only for a file that is reported as Failed. *)
Theorem errors_only_for_failed (fitz_open : list Byte.byte -> exn + document)
    (uploaded_files : list uploaded_file) (trace : list ui_call) :
  uploaded_files <> [] ->
  main fitz_open uploaded_files true = Some trace ->
  exists st,
    main_loop fitz_open uploaded_files initial_state = Some st /\
    fail_count st
    = length (List.filter (extraction_fails fitz_open) uploaded_files) /\
    (length (shown_errors trace) <= fail_count st)%nat.
Proof.
  intros Hne Hm. destruct (main_pressed fitz_open uploaded_files Hne) as (st & E & Et).
  rewrite Et in Hm. apply (inj Some) in Hm. subst trace.
  pose proof (main_loop_fail_count _ _ _ _ E) as Hf. cbn in Hf.
  exists st. split; [exact E |]. split; [exact Hf |].
  rewrite Hf. unfold shown_errors. rewrite !flat_map_app, !length_app.
  fold (shown_errors (concat (imap (file_calls fitz_open (length uploaded_files))
                                uploaded_files))).
  pose proof (loop_calls_errors fitz_open
                (file_calls fitz_open (length uploaded_files)) uploaded_files
                (file_calls_errors fitz_open (length uploaded_files))) as Hle.
  unfold report_calls. rewrite flat_map_app, length_app.
  destruct (0 <? success_count st)%nat; cbn [flat_map app length]; lia.
Qed.

Lemma errors_only_for_failed_witness :
  exists st,
    main_loop sample_open mixed_uploads initial_state = Some st /\
    fail_count st = length (List.filter (extraction_fails sample_open) mixed_uploads) /\
    (length (shown_errors (default [] (main sample_open mixed_uploads true)))
     <= fail_count st)%nat.
Proof.
  apply (errors_only_for_failed sample_open mixed_uploads);
    [discriminate | reflexivity].
Defined.

(** ** Pages that raise, and the name of a first file *)

(** X16: an exception on a page ends the extraction for the whole file: when
    the pages before it gave no row, the call reports the exception, returns
    no row and leaves the document open, whatever the later pages hold. *)
Theorem raising_page_fails_file (fitz_open : list Byte.byte -> exn + document)
    (pdf_bytes : list Byte.byte) (pre : document) (p : page) (post : document)
    (e : exn) :
  fitz_open pdf_bytes = inr (pre ++ p :: post) ->
  pages_loop pre = Exhausted ->
  page_raises p e ->
  extract_table_data fitz_open pdf_bytes = (None, [DocOpen; StError e]).
Proof.
  intros Eo Hpre Hp. unfold extract_table_data. rewrite Eo.
  rewrite (pages_loop_app _ _ Hpre).
  destruct Hp as [-> | (blocks & -> & Eb)]; cbn [pages_loop]; [reflexivity |].
  now rewrite Eb.
Qed.

Lemma raising_page_fails_file_witness :
  extract_table_data (fun _ => inr bad_box_doc) []
  = (None, [DocOpen; StError (ValueError 2)]).
Proof.
  apply (raising_page_fails_file (fun _ => inr bad_box_doc) [] []
           (inr [text_block [{| span_text := "x"; span_bbox := [0; 0]%Q |}]])
           [inr [text_block kcz_spans]] (ValueError 2)).
  - reflexivity.
  - reflexivity.
  - right. eexists. split; reflexivity.
Defined.

Lemma re_sub_app s t : re_sub (s +:+ t) = re_sub s +:+ re_sub t.
Proof.
  induction s as [| c s IH]; [reflexivity |].
  rewrite string_app_cons. cbn [re_sub]. now rewrite IH, string_app_cons.
Qed.

Lemma re_sub_join l : re_sub (Py.join "_" l) = Py.join "_" (map re_sub l).
Proof.
  induction l as [| t l IH]; [reflexivity |].
  cbn [Py.join map]. destruct l as [| t' l']; [reflexivity |].
  rewrite !re_sub_app, IH. reflexivity.
Qed.

(** X17: a file whose sanitized name is not yet used is written to the
    archive under the 9 tokens of its row, each with its forbidden characters
    replaced by underscores, joined by underscores and followed by [.pdf]. *)
Theorem free_name_is_sanitized_join (fitz_open : list Byte.byte -> exn + document)
    (f : uploaded_file) (st : batch_state) (td : row) :
  fst (extract_table_data fitz_open (getvalue f)) = Some td ->
  new_name_of td ∉ generated_new_names st ->
  new_name_of td = Py.join "_" (map re_sub td) +:+ ".pdf" /\
  process_file fitz_open f st
  = Some (record_success (name f) (Py.join "_" (map re_sub td) +:+ ".pdf")
            (getvalue f) st).
Proof.
  intros Ex Hfree.
  assert (En : new_name_of td = Py.join "_" (map re_sub td) +:+ ".pdf").
  { unfold new_name_of, base_name_of. now rewrite re_sub_join. }
  split; [exact En |].
  rewrite (process_file_Some _ _ _ _ Ex), <- En. unfold enough_fuel.
  rewrite Nat.add_comm. cbn [Nat.add dedup_loop].
  now destruct (decide (new_name_of td ∈ generated_new_names st)).
Qed.

Lemma free_name_is_sanitized_join_witness :
  new_name_of ["KCZ"; "A/B"; "C"; "D"; "E"; "F"; "G"; "H"; "I"]
  = "KCZ_A_B_C_D_E_F_G_H_I.pdf" /\
  process_file (fun _ => inr slash_doc)
    {| name := "first.pdf"; getvalue := [Byte.x01] |} initial_state
  = Some (record_success "first.pdf" "KCZ_A_B_C_D_E_F_G_H_I.pdf" [Byte.x01]
            initial_state).
Proof.
  apply (free_name_is_sanitized_join (fun _ => inr slash_doc)
           {| name := "first.pdf"; getvalue := [Byte.x01] |} initial_state
           ["KCZ"; "A/B"; "C"; "D"; "E"; "F"; "G"; "H"; "I"]).
  - reflexivity.
  - apply not_elem_of_empty.
Defined.
